(** * AI-Speech-Evaluator: the scoring engine of [app/scorer.py]

    A shallow embedding of the eight analyzers and of [evaluate_transcript],
    together with the fragment of Python's [re] and [str] that they call,
    and the properties of the engine that the specification states.  The
    rubric loader, the command-line runner and the simple scorer of the
    front end are embedded after the engine.

    Modelling conventions.
    - A Python [str] is a [list ascii].  The character classes and the case
      mapping are those Python applies to ASCII characters.  Python goes by
      the Unicode properties of the other characters (an accented letter is
      a word character, U+00A0 is whitespace, [lower] may change the
      length), which are not embedded: every statement that depends on the
      class or the case of a character is made for ASCII text ([isascii]).
    - The analyzers compute on exact rationals [Q]: [/] is true division
      and the comparisons are the exact ones.  The speech-rate analyzer,
      whose score depends on the rounding of two divisions and which
      raises where a division is not defined, is given a second time in
      binary64 with its exceptions ([Scorer64]); a statement that
      [evaluate_transcript] returns its records keeps to the durations at
      which the binary64 analyzer is proved to return ([plain_duration]).
    - The module-level global [_vader] is an explicit argument
      ([sentiment_backend]); the lexicon analyzer itself is an external
      library and appears as the function it computes.
    - A regular expression is kept as the pattern string of the source and
      compiled by [Re.parse]; matching is a backtracking matcher with
      Python's priorities (greedy repetition, leftmost alternative).
    - The values that may be passed for [transcript] are those of [pyobj];
      objects whose truth value cannot be taken are left out.
    - A call that may raise returns an [outcome]: the value returned or the
      exception raised. *)

From Stdlib Require Import String Ascii List Bool Arith NArith ZArith QArith Qround Lia.
From Stdlib Require Import DecimalString Lqa Sorted SpecFloat.
Import ListNotations.

Set Implicit Arguments.

(** ** Python [str]: code points, classes, [lower], [strip] *)

Module PyStr.

Definition text := list ascii.

Definition code (c : ascii) : N := N_of_ascii c.

Definition in_range (lo hi : N) (c : ascii) : bool :=
  ((lo <=? code c) && (code c <=? hi))%N.

(** [str.isupper], [str.islower] and the class [\d] on ASCII. *)
Definition isupper (c : ascii) : bool := in_range 65 90 c.
Definition islower (c : ascii) : bool := in_range 97 122 c.
Definition isdigit (c : ascii) : bool := in_range 48 57 c.

(** [str.isspace] and the class [\s] on ASCII: TAB..CR, FS..US and SPACE. *)
Definition isspace (c : ascii) : bool := in_range 9 13 c || in_range 28 32 c.

(** The class [\w] on ASCII: letters, digits and the underscore. *)
Definition isword (c : ascii) : bool :=
  isupper c || islower c || isdigit c || (code c =? 95)%N.

(** The lower case of an ASCII character; another character is kept. *)
Definition lower_char (c : ascii) : ascii :=
  if isupper c then ascii_of_N (code c + 32) else c.

(** [text.lower()] on ASCII text *)
Definition lower (t : text) : text := map lower_char t.


Fixpoint lstrip (t : text) : text :=
  match t with
  | c :: t' => if isspace c then lstrip t' else t
  | [] => []
  end.

(** [s.strip()] *)
Definition strip (t : text) : text := rev (lstrip (rev (lstrip t))).

Definition of_string (s : string) : text := list_ascii_of_string s.

Fixpoint text_eqb (a b : text) : bool :=
  match a, b with
  | [], [] => true
  | x :: a', y :: b' => Ascii.eqb x y && text_eqb a' b'
  | _, _ => false
  end.

(** Membership in, and size of, a Python [set] of strings built from a list. *)
Definition mem (w : text) (l : list text) : bool := existsb (text_eqb w) l.

Fixpoint dedup (l : list text) : list text :=
  match l with
  | [] => []
  | w :: l' => if mem w l' then dedup l' else w :: dedup l'
  end.

End PyStr.

(** ** The fragment of Python's [re] used by the scorer *)

Module Re.
Import PyStr.

Inductive cset : Type :=
| CDigit                      (* \d *)
| CSpace                      (* \s *)
| CWord                       (* \w *)
| COneOf (l : list ascii).    (* [abc] *)

Inductive re : Type :=
| REmpty
| RLit (c : ascii)
| RSet (cs : cset)
| RBound                       (* \b *)
| RRep (cs : cset) (min : nat) (* greedy: cs* is min 0, cs+ is min 1 *)
| RGroup (n : nat) (r : re)    (* capturing group number n *)
| RBack (n : nat)              (* \n *)
| RCat (a b : re)
| RAlt (a b : re).

Definition in_cset (cs : cset) (c : ascii) : bool :=
  match cs with
  | CDigit => isdigit c
  | CSpace => isspace c
  | CWord => isword c
  | COneOf l => existsb (Ascii.eqb c) l
  end.

(** *** Pattern syntax *)

Local Open Scope char_scope.

(** After a class: [+], [*] or nothing. *)
Definition quantified (cs : cset) (s : text) : re * text :=
  match s with
  | "+" :: s' => (RRep cs 1, s')
  | "*" :: s' => (RRep cs 0, s')
  | _ => (RSet cs, s)
  end.

(** The body of a bracket set up to its closing bracket; ranges, negation
    and escapes inside brackets are outside the fragment. *)
Fixpoint bracket (s : text) (acc : list ascii) : option (list ascii * text) :=
  match s with
  | [] => None
  | "]" :: s' => Some (rev acc, s')
  | "\" :: _ | "-" :: _ | "^" :: _ | "[" :: _ => None
  | c :: s' => bracket s' (c :: acc)
  end.

Definition digit_value (c : ascii) : nat := N.to_nat (code c - 48).

(** Recursive descent: alternatives of sequences of atoms.  [g] is the
    number of groups opened so far; the fuel bounds the nesting. *)
Fixpoint parse_alt (fuel : nat) (s : text) (g : nat) {struct fuel}
  : option (re * text * nat) :=
  match fuel with
  | O => None
  | S fuel' =>
    match parse_seq fuel' s g with
    | Some (a, "|" :: s', g') =>
      match parse_alt fuel' s' g' with
      | Some (b, s'', g'') => Some (RAlt a b, s'', g'')
      | None => None
      end
    | other => other
    end
  end
with parse_seq (fuel : nat) (s : text) (g : nat) {struct fuel}
  : option (re * text * nat) :=
  match fuel with
  | O => None
  | S fuel' =>
    let more (a : re) (s' : text) (g' : nat) :=
      match parse_seq fuel' s' g' with
      | Some (r, s'', g'') => Some (RCat a r, s'', g'')
      | None => None
      end in
    match s with
    | [] => Some (REmpty, s, g)
    | "|" :: _ => Some (REmpty, s, g)
    | ")" :: _ => Some (REmpty, s, g)
    | "(" :: s1 =>
      match parse_alt fuel' s1 (S g) with
      | Some (r, ")" :: s2, g') => more (RGroup (S g) r) s2 g'
      | _ => None
      end
    | "[" :: s1 =>
      match bracket s1 [] with
      | Some (l, s2) => let (a, s3) := quantified (COneOf l) s2 in more a s3 g
      | None => None
      end
    | "\" :: c :: s1 =>
      if Ascii.eqb c "b" then more RBound s1 g
      else if Ascii.eqb c "d" then let (a, s2) := quantified CDigit s1 in more a s2 g
      else if Ascii.eqb c "s" then let (a, s2) := quantified CSpace s1 in more a s2 g
      else if Ascii.eqb c "w" then let (a, s2) := quantified CWord s1 in more a s2 g
      else if in_range 49 57 c then more (RBack (digit_value c)) s1 g
      else if isword c then None
      else more (RLit c) s1 g
    | "\" :: [] => None
    | "+" :: _ | "*" :: _ | "?" :: _ | "{" :: _ | "}" :: _
    | "]" :: _ | "^" :: _ | "$" :: _ | "." :: _ => None
    | c :: s1 => more (RLit c) s1 g
    end
  end.

Definition parse (p : string) : option re :=
  let s := of_string p in
  match parse_alt (2 * List.length s + 2) s 0 with
  | Some (r, [], _) => Some r
  | _ => None
  end.

(** [re.compile]; a pattern outside the fragment matches nothing (Python
    raises [re.error] on a malformed one; no pattern of the scorer is). *)
Definition compile (p : string) : re :=
  match parse p with
  | Some r => r
  | None => RSet (COneOf [])
  end.

(** [re.escape] (Python 3.7 and later): a backslash before each of the
    characters that are special in a pattern. *)
Definition escaped : list ascii :=
  of_string "()[]{}?*+-|^$\.&~# " ++
  map ascii_of_nat [9; 10; 13; 11; 12]%nat.

Definition escape (s : string) : string :=
  string_of_list_ascii
    (flat_map (fun c => if existsb (Ascii.eqb c) escaped then ["\"; c] else [c])
       (of_string s)).

Local Close Scope char_scope.

(** *** Matching *)

(** A position of the subject: the character before it, its offset, the
    characters from it on, and the groups captured so far. *)
Record mstate : Type := MState {
  prev : option ascii;
  pos : nat;
  rest : text;
  caps : list (nat * text)
}.

Definition start_state (t : text) : mstate := MState None 0 t [].

Definition word_before (st : mstate) : bool :=
  match prev st with Some c => isword c | None => false end.

Definition word_after (st : mstate) : bool :=
  match rest st with c :: _ => isword c | [] => false end.

(** [\b]: exactly one side is a word character. *)
Definition at_boundary (st : mstate) : bool :=
  xorb (word_before st) (word_after st).

Definition step (c : ascii) (s' : text) (st : mstate) : mstate :=
  MState (Some c) (S (pos st)) s' (caps st).

Definition with_rest (s : text) (st : mstate) : mstate :=
  MState (prev st) (pos st) s (caps st).

Definition set_cap (n : nat) (w : text) (st : mstate) : mstate :=
  MState (prev st) (pos st) (rest st) ((n, w) :: caps st).

Fixpoint get_cap (n : nat) (l : list (nat * text)) : option text :=
  match l with
  | [] => None
  | (m, w) :: l' => if Nat.eqb n m then Some w else get_cap n l'
  end.

(** Greedy repetition of a class: the longest run first, then shorter
    ones, never fewer than [min]. *)
Fixpoint rep (cs : cset) (min : nat) (s : text) (st : mstate)
    (k : mstate -> option mstate) {struct s} : option mstate :=
  let here := if Nat.eqb min 0 then k (with_rest s st) else None in
  match s with
  | c :: s' =>
    if in_cset cs c then
      match rep cs (Nat.pred min) s' (step c s' st) k with
      | Some e => Some e
      | None => here
      end
    else here
  | [] => here
  end.

(** The literal text [w] at the current position. *)
Fixpoint lit (w : text) (s : text) (st : mstate)
    (k : mstate -> option mstate) {struct w} : option mstate :=
  match w with
  | [] => k (with_rest s st)
  | c :: w' =>
    match s with
    | c' :: s' => if Ascii.eqb c c' then lit w' s' (step c' s' st) k else None
    | [] => None
    end
  end.

(** [run r st k]: match [r] at [st] and continue with [k]; [None] makes
    the matcher backtrack into the last choice. *)
Fixpoint run (r : re) (st : mstate) (k : mstate -> option mstate)
  : option mstate :=
  match r with
  | REmpty => k st
  | RLit c => lit [c] (rest st) st k
  | RSet cs =>
    match rest st with
    | c :: s' => if in_cset cs c then k (step c s' st) else None
    | [] => None
    end
  | RBound => if at_boundary st then k st else None
  | RRep cs min => rep cs min (rest st) st k
  | RGroup n r' =>
    run r' st (fun e => k (set_cap n (firstn (pos e - pos st) (rest st)) e))
  | RBack n =>
    match get_cap n (caps st) with
    | Some w => lit w (rest st) st k
    | None => None
    end
  | RCat a b => run a st (fun m => run b m k)
  | RAlt a b =>
    match run a st k with
    | Some e => Some e
    | None => run b st k
    end
  end.

(** A match found by a scan: where it starts, where it ends, what it
    spans, and the state from which the scan goes on. *)
Record found : Type := Found {
  m_start : nat;
  m_end : nat;
  m_text : text;
  m_after : mstate
}.

(** The leftmost match at or after the position [st]. *)
Fixpoint search_from (r : re) (s : text) (st : mstate) {struct s}
  : option found :=
  match run r (with_rest s st) Some with
  | Some e =>
    Some (Found (pos st) (pos e) (firstn (pos e - pos st) s)
            (MState (prev e) (pos e) (rest e) []))
  | None =>
    match s with
    | c :: s' => search_from r s' (step c s' st)
    | [] => None
    end
  end.

(** [re.search(p, t)] as a truth value. *)
Definition search (p : string) (t : text) : bool :=
  match search_from (compile p) t (start_state t) with
  | Some _ => true
  | None => false
  end.

(** The successive non-overlapping matches, left to right.  No pattern of
    the scorer matches the empty string; after an empty match the scan
    moves on by one character. *)
Fixpoint scan (fuel : nat) (r : re) (st : mstate) : list found :=
  match fuel with
  | O => []
  | S fuel' =>
    match search_from r (rest st) st with
    | None => []
    | Some m =>
      let st' := m_after m in
      m :: (if Nat.eqb (m_end m) (m_start m)
            then match rest st' with
                 | c :: s' => scan fuel' r (step c s' st')
                 | [] => []
                 end
            else scan fuel' r st')
    end
  end.

(** [re.finditer(p, t)] *)
Definition finditer (p : string) (t : text) : list found :=
  scan (S (List.length t)) (compile p) (start_state t).

(** [re.findall(p, t)] for a pattern without group: the matched texts. *)
Definition findall (p : string) (t : text) : list text :=
  map m_text (finditer p t).

(** The pieces of [s] (which starts at offset [i]) between the spans. *)
Fixpoint pieces (ms : list found) (i : nat) (s : text) : list text :=
  match ms with
  | [] => [s]
  | m :: ms' =>
    firstn (m_start m - i) s :: pieces ms' (m_end m) (skipn (m_end m - i) s)
  end.

(** [re.split(p, t)] for a pattern without group. *)
Definition split (p : string) (t : text) : list text :=
  pieces (finditer p t) 0 t.

End Re.

(** ** Python numbers *)

Module PyNum.

Local Open Scope Q_scope.

Definition of_nat (n : nat) : Q := inject_Z (Z.of_nat n).

Definition leb (a b : Q) : bool := Qle_bool a b.
Definition ltb (a b : Q) : bool := negb (Qle_bool b a).
Definition geb (a b : Q) : bool := Qle_bool b a.

(** [min(a, b)]: the first argument unless the second is smaller. *)
Definition py_min (a b : Q) : Q := if ltb b a then b else a.

(** [sum(l)] *)
Definition sum (l : list Q) : Q := fold_left Qplus l 0.

(** [round(x, d)]: to [d] decimals, a tie going to the even neighbour.  It
    rounds the exact value, where Python rounds the binary64 one: the two
    can differ in the last decimal.  [Binary64.round] is the latter. *)
Definition round (x : Q) (d : nat) : Q :=
  let scale := inject_Z (10 ^ Z.of_nat d) in
  let y := x * scale in
  let f := Qfloor y in
  let frac := y - inject_Z f in
  let n := if ltb frac (1 # 2) then f
           else if ltb (1 # 2) frac then (f + 1)%Z
           else if Z.even f then f else (f + 1)%Z in
  Qred (inject_Z n / scale).

End PyNum.

(** ** The scorer *)

Module Scorer.
Import PyStr PyNum.

Local Open Scope string_scope.
Local Open Scope Q_scope.

(** *** Constants and configuration *)

Definition KEYWORD_MAP : list (string * list string) :=
  [ ("name", ["name is"; "my name is"; "i am"; "myself"; "\bthis is\b"; "\bmy name\b"]);
    ("age", ["age"; "years old"; "\b\d+\s*years\s*old\b"; "\bi am \d+\b"; "\bI'm \d+\b"]);
    ("school", ["school"; "student of"; "study in"; "studying in"; "class of"]);
    ("class", ["class"; "grade"; "standard"; "\b8th\b"; "\b9th\b"; "\b10th\b"]);
    ("family", ["family"; "parents"; "mother"; "father"; "brother"; "sister";
                "\bwe (are|'re) \d+ people\b"]);
    ("hobby", ["hobby"; "hobbies"; "like to"; "love to"; "enjoy"; "playing"; "play"]);
    ("interest", ["interest"; "passionate"; "fan of"; "interested in"]);
    ("goal", ["goal"; "ambition"; "dream"; "want to be"; "i want to"]);
    ("fun_fact", ["fun fact"; "once"; "secret"; "don't know"; "dont know"; "surprising"]) ].

(** A Python [set]; its iteration order is not fixed by the language, the
    order of the literal is used here. *)
Definition FILLER_WORDS : list string :=
  [ "um"; "uh"; "like"; "you know"; "so"; "actually"; "basically"; "right";
    "i mean"; "well"; "kinda"; "sort of"; "okay"; "hmm"; "ah"; "erm"; "huh" ].

Definition SALUTATIONS : list (string * list string) :=
  [ ("excellent", ["i am excited to introduce"; "feeling great"; "i'm excited"; "i am excited"]);
    ("good", ["good morning"; "good afternoon"; "good evening"; "good day"; "hello everyone"]);
    ("normal", ["\bhi\b"; "\bhello\b"]) ].

(** [d.get(k, [])], and [d[k]] for a key that is present. *)
Fixpoint get {A : Type} (d : list (string * list A)) (k : string) : list A :=
  match d with
  | [] => []
  | (k', v) :: d' => if String.eqb k k' then v else get d' k
  end.

(** *** Results *)

Inductive pyval : Type :=
| VNum (q : Q)
| VStr (s : string)
| VStrs (l : list string).

(** The [details] of a criterion: a label or a dictionary. *)
Inductive details : Type :=
| DText (s : string)
| DDict (d : list (string * pyval)).

(** *** Helper functions *)

Definition _lower_and_clean (t : text) : text := lower t.

Definition _find_any_pattern (t : text) (patterns : list string) : bool :=
  let text_l := lower t in
  existsb (fun p => Re.search p text_l) patterns.

(** *** Scoring functions *)

Definition detect_salutation_level (t0 : text) : Q * details :=
  let t := _lower_and_clean t0 in
  if existsb (fun p => Re.search p t) (get SALUTATIONS "excellent")
  then (5, DText "Excellent")
  else if existsb (fun p => Re.search p t) (get SALUTATIONS "good")
  then (4, DText "Good")
  else if existsb (fun p => Re.search p t) (get SALUTATIONS "normal")
  then (2, DText "Normal")
  else (0, DText "No salutation detected").

Definition must : list string := ["name"; "age"; "school"; "class"; "family"; "hobby"].
Definition optional : list string := ["goal"; "fun_fact"; "interest"].

Definition found_keys (t : text) (keys : list string) : list string :=
  filter (fun k => _find_any_pattern t (get KEYWORD_MAP k)) keys.

Definition keyword_raw_score (found_must found_opt : nat) : Q :=
  let must_score :=
    match must with [] => 0 | _ => (of_nat found_must / of_nat (List.length must)) * 20 end in
  let opt_score :=
    match optional with [] => 0 | _ => (of_nat found_opt / of_nat (List.length optional)) * 10 end in
  must_score + opt_score.

Definition keyword_presence_score (t0 : text) (weight : Q) : Q * details :=
  let t := _lower_and_clean t0 in
  let found_must_list := found_keys t must in
  let found_opt_list := found_keys t optional in
  let found_must := List.length found_must_list in
  let found_opt := List.length found_opt_list in
  let raw_score := keyword_raw_score found_must found_opt in
  let final_score := py_min raw_score weight in
  (final_score,
   DDict [ ("found_must", VStrs found_must_list);
           ("found_optional", VStrs found_opt_list);
           ("raw_score", VNum raw_score) ]).

Definition groups_map : list (string * list string) :=
  [ ("sal", (get SALUTATIONS "good" ++ get SALUTATIONS "normal" ++
             get SALUTATIONS "excellent")%list);
    ("basic", (get KEYWORD_MAP "name" ++ get KEYWORD_MAP "age" ++
               get KEYWORD_MAP "class" ++ get KEYWORD_MAP "school")%list);
    ("add", (get KEYWORD_MAP "hobby" ++ get KEYWORD_MAP "interest" ++
             get KEYWORD_MAP "goal" ++ get KEYWORD_MAP "fun_fact")%list);
    ("end", ["thank you"; "thanks"; "thankyou"; "that's all"]) ].

(** The start offsets of all matches of all patterns of a group. *)
Definition group_indices (t : text) (patterns : list string) : list nat :=
  flat_map (fun p => map Re.m_start (Re.finditer p t)) patterns.

Definition average (indices : list nat) : option Q :=
  match indices with
  | [] => None
  | _ => Some (sum (map of_nat indices) / of_nat (List.length indices))
  end.

Definition group_positions (t : text) : list (string * option Q) :=
  map (fun g => (fst g, average (group_indices t (snd g)))) groups_map.

(** [positions[name]] *)
Fixpoint position (positions : list (string * option Q)) (name : string) : option Q :=
  match positions with
  | [] => None
  | (k, v) :: d' => if String.eqb name k then v else position d' name
  end.

Definition sequence : list string := ["sal"; "basic"; "add"; "end"].

(** The two nested loops over [i < j]: the pair of counters
    [(correct_pairs, total_pairs)]. *)
Definition compare_pair (positions : list (string * option Q)) (i j : nat)
    (acc : nat * nat) : nat * nat :=
  let pos1 := position positions (nth i sequence "") in
  let pos2 := position positions (nth j sequence "") in
  match pos1, pos2 with
  | Some p1, Some p2 =>
    let total := S (snd acc) in
    if ltb p1 p2 then (S (fst acc), total) else (fst acc, total)
  | _, _ => acc
  end.

Definition count_pairs (positions : list (string * option Q)) : nat * nat :=
  let n := List.length sequence in
  fold_left
    (fun acc i =>
       fold_left (fun acc' j => compare_pair positions i j acc')
         (seq (i + 1) (n - (i + 1))) acc)
    (seq 0 n) (0%nat, 0%nat).

Definition flow_score (t0 : text) (weight : Q) : Q * details :=
  let t := _lower_and_clean t0 in
  let positions := group_positions t in
  let (correct_pairs, total_pairs) := count_pairs positions in
  if Nat.eqb total_pairs 0 then
    match position positions "basic" with
    | Some _ => (3.0, DDict [("reason", VStr "Short text, basic info found")])
    | None => (0.0, DDict [("reason", VStr "No structure detected")])
    end
  else
    let final_score := (of_nat correct_pairs / of_nat total_pairs) * weight in
    (final_score,
     DDict [ ("correct_pairs", VNum (of_nat correct_pairs));
             ("total_pairs", VNum (of_nat total_pairs)) ]).

Definition word_count (t : text) : nat := List.length (Re.findall "\w+" t).

(** The analyzer on exact numbers, where both divisions are defined and no
    quotient is rounded; [Scorer64.speech_rate_score] is the analyzer as
    binary64 computes it. *)
Definition speech_rate_score (t : text) (duration_seconds0 : Q) (weight : Q)
  : Q * details :=
  let words := word_count t in
  let duration_seconds := if leb duration_seconds0 0 then 52 else duration_seconds0 in
  let wpm := of_nat words / (duration_seconds / 60.0) in
  let score :=
    if leb 111 wpm && leb wpm 140 then 10
    else if (leb 81 wpm && ltb wpm 111) || (leb 141 wpm && leb wpm 160) then 6
    else 2 in
  (score,
   DDict [ ("wpm", VNum (round wpm 1));
           ("word_count", VNum (of_nat words));
           ("duration", VNum duration_seconds) ]).

Definition starts_lower (s : text) : bool :=
  match s with
  | c :: _ => islower c
  | [] => false
  end.

Definition grammar_score (t : text) (weight : Q) : Q * details :=
  let sentences := Re.split "[.!?]+" t in
  let sentences := map strip (filter (fun s => negb (Nat.eqb (List.length (strip s)) 0)) sentences) in
  let num_sentences := Nat.max 1 (List.length sentences) in
  let errors := 0%nat in
  let errors := (errors + List.length (filter starts_lower sentences))%nat in
  let errors := (errors + List.length (Re.finditer "\s+i\s+" (of_string " " ++ t ++ of_string " ")%list))%nat in
  let errors := (errors + List.length (Re.finditer "\b(\w+)\s+\1\b" (lower t)))%nat in
  let estimated_words :=
    match word_count t with
    | O => (num_sentences * 10)%nat
    | n => n
    end in
  let errors_per_100 := (of_nat errors / of_nat estimated_words) * 100 in
  let score_ratio := 1.0 - py_min (errors_per_100 / 10.0) 1.0 in
  let final_score := score_ratio * weight in
  (final_score,
   DDict [ ("errors_detected", VNum (of_nat errors));
           ("rate_per_100", VNum (round errors_per_100 2)) ]).

Definition vocab_ttr_score (t : text) (weight : Q) : Q * details :=
  let words := Re.findall "\w+" (lower t) in
  let total := List.length words in
  if Nat.eqb total 0 then (0, DDict [])
  else
    let distinct := List.length (dedup words) in
    let ttr := of_nat distinct / of_nat total in
    let score :=
      if geb ttr 0.9 then weight
      else if geb ttr 0.7 then 0.8 * weight
      else if geb ttr 0.5 then 0.6 * weight
      else if geb ttr 0.3 then 0.4 * weight
      else 0.2 * weight in
    (score, DDict [("ttr", VNum (round ttr 2))]).

Definition decimal (n : nat) : string := NilEmpty.string_of_uint (Nat.to_uint n).

(** The pattern built for one filler: the escaped filler between word
    boundaries. *)
Definition filler_pattern (filler : string) : string :=
  "\b" ++ Re.escape filler ++ "\b".

(** The number of matches of one filler in the lowercased text. *)
Definition filler_matches (t : text) (filler : string) : nat :=
  List.length (Re.findall (filler_pattern filler) (lower t)).

(** The loop over [FILLER_WORDS]: [(filler_count, found_fillers)]. *)
Definition count_fillers (t : text) (fillers : list string) : nat * list string :=
  fold_left
    (fun acc filler =>
       let count := filler_matches t filler in
       if Nat.ltb 0 count
       then ((fst acc + count)%nat, (snd acc ++ [(filler ++ " (" ++ decimal count ++ ")")%string])%list)
       else acc)
    fillers (0%nat, []).

Definition filler_word_score (t : text) (weight : Q) : Q * details :=
  let words := Re.findall "\w+" (lower t) in
  let total_words := List.length words in
  if Nat.eqb total_words 0 then (0, DDict [])
  else
    let (filler_count, found_fillers) := count_fillers t FILLER_WORDS in
    let rate := (of_nat filler_count / of_nat total_words) * 100 in
    let score :=
      if leb rate 3.0 then weight
      else if leb rate 6.0 then 12
      else if leb rate 9.0 then 9
      else if leb rate 12.0 then 6
      else 3 in
    (score,
     DDict [ ("rate_percent", VNum (round rate 2));
             ("count", VNum (of_nat filler_count));
             ("found", VStrs found_fillers) ]).

(** The module global [_vader]: the lexicon analyzer, reduced to the
    compound polarity it reports for a text, or [None]. *)
Inductive sentiment_backend : Type :=
| Vader (polarity_compound : text -> Q)
| NoVader.

Definition pos_words : list string :=
  ["excited"; "love"; "great"; "good"; "happy"; "enjoy"; "confident"; "passion"; "thank"].
Definition neg_words : list string := ["hate"; "bad"; "boring"; "sad"; "nervous"].

(** [len(tokens.intersection(words))] for a set [tokens]. *)
Definition hits (tokens : list text) (words : list string) : nat :=
  List.length (filter (fun w => mem w (map of_string words)) (dedup tokens)).

Definition heuristic_compound (t : text) : Q :=
  let tokens := Re.findall "\w+" (lower t) in
  let pos_hits := hits tokens pos_words in
  let neg_hits := hits tokens neg_words in
  if Nat.ltb neg_hits pos_hits then 0.6
  else if Nat.ltb pos_hits neg_hits then -0.3
  else 0.0.

(** The compound polarity and the name of the method that produced it. *)
Definition compound_of (_vader : sentiment_backend) (t : text) : Q * string :=
  match _vader with
  | Vader polarity_compound => (polarity_compound t, "VADER")
  | NoVader => (heuristic_compound t, "Heuristic")
  end.

Definition sentiment_score (_vader : sentiment_backend) (t : text) (weight : Q)
  : Q * details :=
  let (compound, method) := compound_of _vader t in
  let score :=
    if geb compound 0.5 then weight
    else if geb compound 0.3 then 12
    else if geb compound 0.0 then 9
    else if geb compound (-0.2) then 6
    else 3 in
  (score, DDict [("compound", VNum compound); ("method", VStr method)]).

(** *** Main entry point *)

Record criterion : Type := Criterion {
  name : string;
  score : Q;
  weight : Q;
  detail : details
}.

(** The values a caller may pass for [transcript] or [rubric_df]. *)
#[warnings="-register-all"]
Inductive pyobj : Type :=
| PyNone
| PyBool (b : bool)
| PyInt (n : Z)
| PyFloat (q : Q)
| PyStr (s : text)
| PyBytes (b : text)
| PyList (l : list pyobj).

(** [bool(o)] *)
Definition truthy (o : pyobj) : bool :=
  match o with
  | PyNone => false
  | PyBool b => b
  | PyInt n => negb (Z.eqb n 0)
  | PyFloat q => negb (Qeq_bool q 0)
  | PyStr s => negb (Nat.eqb (List.length s) 0)
  | PyBytes b => negb (Nat.eqb (List.length b) 0)
  | PyList l => negb (Nat.eqb (List.length l) 0)
  end.

(** [isinstance(o, str)] *)
Definition is_str (o : pyobj) : bool :=
  match o with
  | PyStr _ => true
  | _ => false
  end.

Inductive analyzer : Type :=
| SalutationAnalyzer | KeywordAnalyzer | FlowAnalyzer | SpeechRateAnalyzer
| GrammarAnalyzer | VocabularyAnalyzer | FillerAnalyzer | SentimentAnalyzer.

(** A computation together with the analyzers it has invoked, in order. *)
Definition traced (A : Type) : Type := (A * list analyzer)%type.

Definition ret {A : Type} (a : A) : traced A := (a, []).

Definition bind {A B : Type} (m : traced A) (f : A -> traced B) : traced B :=
  let (a, l) := m in
  let (b, l') := f a in
  (b, (l ++ l')%list).

(** The call of one analyzer. *)
Definition invoke {A : Type} (who : analyzer) (result : A) : traced A :=
  (result, [who]).

Notation "' pat <- m ;; k" := (bind m (fun x => let pat := x in k))
  (at level 61, pat pattern, m at next level, right associativity).

Definition evaluate_transcript_traced (_vader : sentiment_backend)
    (transcript : pyobj) (rubric_df : pyobj) (duration_seconds : Q)
  : traced (Q * list criterion) :=
  if negb (truthy transcript) || negb (is_str transcript) then ret (0.0, [])
  else
    match transcript with
    | PyStr t =>
      let criteria_list := [] in
      '(s, d) <- invoke SalutationAnalyzer (detect_salutation_level t) ;;
      let criteria_list := (criteria_list ++ [Criterion "Salutation Level" s 5 d])%list in
      '(s, d) <- invoke KeywordAnalyzer (keyword_presence_score t 30) ;;
      let criteria_list := (criteria_list ++ [Criterion "Keyword Presence" s 30 d])%list in
      '(s, d) <- invoke FlowAnalyzer (flow_score t 5) ;;
      let criteria_list := (criteria_list ++ [Criterion "Flow (Order)" s 5 d])%list in
      '(s, d) <- invoke SpeechRateAnalyzer (speech_rate_score t duration_seconds 10) ;;
      let criteria_list := (criteria_list ++ [Criterion "Speech Rate (WPM)" s 10 d])%list in
      '(s, d) <- invoke GrammarAnalyzer (grammar_score t 10) ;;
      let criteria_list := (criteria_list ++ [Criterion "Grammar Errors" s 10 d])%list in
      '(s, d) <- invoke VocabularyAnalyzer (vocab_ttr_score t 10) ;;
      let criteria_list := (criteria_list ++ [Criterion "Vocabulary (TTR)" s 10 d])%list in
      '(s, d) <- invoke FillerAnalyzer (filler_word_score t 15) ;;
      let criteria_list := (criteria_list ++ [Criterion "Filler Word Rate" s 15 d])%list in
      '(s, d) <- invoke SentimentAnalyzer (sentiment_score _vader t 15) ;;
      let criteria_list := (criteria_list ++ [Criterion "Sentiment" s 15 d])%list in
      let total_score := sum (map score criteria_list) in
      ret (total_score, criteria_list)
    | _ => ret (0.0, [])
    end.

(** [evaluate_transcript(transcript, rubric_df, duration_seconds)] *)
Definition evaluate_transcript (_vader : sentiment_backend)
    (transcript : pyobj) (rubric_df : pyobj) (duration_seconds : Q)
  : Q * list criterion :=
  fst (evaluate_transcript_traced _vader transcript rubric_df duration_seconds).

(** The analyzers an evaluation invokes. *)
Definition invoked (_vader : sentiment_backend)
    (transcript : pyobj) (rubric_df : pyobj) (duration_seconds : Q)
  : list analyzer :=
  snd (evaluate_transcript_traced _vader transcript rubric_df duration_seconds).

(** The sample of the [__main__] block. *)
Definition sample_text : text :=
  of_string
    ("Hello everyone, I am excited to introduce myself. " ++
     "My name is Rahul and I study in class 10 at Delhi Public School. " ++
     "I am 15 years old and live with my family which includes my parents and younger sister. " ++
     "My hobby is playing chess and I have a strong interest in coding. " ++
     "A fun fact about me is that I can solve a cube in under a minute. " ++
     "My goal is to become a software engineer. Thank you for listening.").

End Scorer.

(** ** Exceptions *)

Module PyErr.

(** The exceptions that the embedded code can raise; [OtherError] stands
    for any exception of a library call, such as [FileNotFoundError]. *)
Inductive exn : Type :=
| ZeroDivisionError
| OverflowError
| AttributeError
| OtherError (name : string).

(** What a call comes to: the value returned or the exception raised. *)
Inductive outcome (A : Type) : Type :=
| Returned (a : A)
| Raised (e : exn).

Arguments Raised {A} e.

(** [m] and then, when it has returned, [f] of its value. *)
Definition on_return {A B : Type} (m : outcome A) (f : A -> outcome B) : outcome B :=
  match m with
  | Returned a => f a
  | Raised e => Raised e
  end.

End PyErr.

(** ** Python [float]: IEEE 754 binary64 *)

Module Binary64.
Import PyErr.

Local Open Scope Z_scope.

Definition prec : Z := 53.
Definition emax : Z := 1024.

(** A Python [float] is a [spec_float] that is a valid binary64; the
    operations are those of [SpecFloat] at precision 53 and exponent
    bound 1024, which round to the nearest float, a tie going to the even
    neighbour. *)
Definition float : Type := spec_float.


(** A number as the scorer is handed one: an [int] or a [float]. *)
Inductive number : Type :=
| Int (n : Z)
| Float (x : float).

(** The float nearest to the integer [n] (a tie going to the even
    neighbour), infinite when [n] is out of range; it is [n] itself up to
    2^53. *)
Definition exact (n : Z) : float := binary_normalize prec emax n 0 false.

(** The conversion of an [int] operand of a float operation. *)
Definition of_int (n : Z) : outcome float :=
  match exact n with
  | S754_infinity _ => Raised OverflowError
  | x => Returned x
  end.

Definition to_float (a : number) : outcome float :=
  match a with
  | Int n => of_int n
  | Float x => Returned x
  end.

Definition is_zero (x : float) : bool :=
  match x with
  | S754_zero _ => true
  | _ => false
  end.

(** [a / b] where one operand at least is a [float]: both are converted,
    then the divisor is tested. *)
Definition truediv (a b : number) : outcome float :=
  on_return (to_float a) (fun x =>
  on_return (to_float b) (fun y =>
  if is_zero y then Raised ZeroDivisionError
  else Returned (SFdiv prec emax x y))).

(** [x <= y] and [x < y]; both are false when an operand is not a number. *)
Definition leb (x y : float) : bool := SFleb x y.
Definition ltb (x y : float) : bool := SFltb x y.

(** [a <= 0] *)
Definition le_zero (a : number) : bool :=
  match a with
  | Int n => n <=? 0
  | Float x => leb x (S754_zero false)
  end.

(** [n / d] rounded to an integer, a tie going to the even neighbour
    ([d] positive). *)
Definition nearest_even (n d : Z) : Z :=
  let q := n / d in
  let r := n mod d in
  match 2 * r ?= d with
  | Lt => q
  | Gt => q + 1
  | Eq => if Z.even q then q else q + 1
  end.

(** The float nearest to [k / d] with the sign [s] ([k] not negative, [d]
    positive). *)
Definition of_ratio (s : bool) (k d : Z) : float :=
  match k with
  | Z0 => S754_zero s
  | _ =>
    let '(mz, ez, lz) := SFdiv_core_binary prec emax k 0 d 0 in
    binary_round_aux prec emax s mz ez lz
  end.

(** [round(x, ndigits)]: the value of [x] is rounded to [ndigits] decimals
    and the decimal is read back as a float.  A float of 2^52 or more is an
    integer and stays as it is. *)
Definition round (x : float) (ndigits : nat) : float :=
  match x with
  | S754_finite s m e =>
    if 0 <=? e then x
    else
      let scale := 10 ^ Z.of_nat ndigits in
      of_ratio s (nearest_even (Zpos m * scale) (2 ^ (- e))) scale
  | _ => x
  end.




End Binary64.

(** ** The speech-rate analyzer in binary64 *)

Module Scorer64.
Import PyStr PyErr Binary64.

Local Open Scope string_scope.
Local Open Scope Z_scope.

(** [words / (duration_seconds / 60.0)] *)
Definition words_per_minute (words : Z) (duration_seconds : number) : outcome float :=
  on_return (truediv duration_seconds (Float (exact 60))) (fun minutes =>
  truediv (Int words) (Float minutes)).

Definition speech_rate_score (t : text) (duration_seconds : number) (weight : Z)
  : outcome (Z * list (string * number)) :=
  let words := Z.of_nat (List.length (Re.findall "\w+" t)) in
  let duration_seconds := if le_zero duration_seconds then Int 52 else duration_seconds in
  on_return (words_per_minute words duration_seconds) (fun wpm =>
  let score :=
    if leb (exact 111) wpm && leb wpm (exact 140) then 10
    else if (leb (exact 81) wpm && ltb wpm (exact 111))
            || (leb (exact 141) wpm && leb wpm (exact 160)) then 6
    else 2 in
  Returned (score,
            [ ("wpm", Float (round wpm 1));
              ("word_count", Int words);
              ("duration", duration_seconds) ])).

End Scorer64.

(** ** The behaviour the specification describes

    Definitions written from the words of the specification, to be compared
    with the functions of the scorer. *)

Module Spec.
Import PyStr PyNum.

Local Open Scope Q_scope.

(** Words per minute: the word count over the duration in minutes, with 52
    seconds in place of a duration that is zero or negative. *)
Definition wpm (words : nat) (duration : Q) : Q :=
  let seconds := if Qle_bool duration 0 then 52 else duration in
  of_nat words / (seconds / 60).




(** A text that does not end, or does not start, inside a word. *)
Definition ends_outside_word (before : text) : Prop :=
  match rev before with
  | [] => True
  | c :: _ => isword c = false
  end.

Definition starts_outside_word (after : text) : Prop :=
  match after with
  | [] => True
  | c :: _ => isword c = false
  end.

(** [w] occurs in [t] at offset [i] as a whole word: the character before
    it and the character after it, when there is one, are not word
    characters. *)
Definition whole_word_at (w t : text) (i : nat) : Prop :=
  exists before after : text,
    t = (before ++ w ++ after)%list /\
    List.length before = i /\
    ends_outside_word before /\
    starts_outside_word after.





Definition evaluable (pair : option Q * option Q) : bool :=
  match pair with
  | (Some _, Some _) => true
  | _ => false
  end.

Definition in_order (pair : option Q * option Q) : bool :=
  match pair with
  | (Some a, Some b) => negb (Qle_bool b a)
  | _ => false
  end.


End Spec.

(** ** Notions used to state the properties *)

Module Notions.
Import PyStr PyNum Re Scorer.

Local Open Scope string_scope.

(** *** Positions of a subject *)

(** The character before the position reached by reading [l]. *)
Definition prev_after (p : option ascii) (l : text) : option ascii :=
  fold_left (fun _ c => Some c) l p.

(** The state [st] is a position of the subject [t]. *)
Definition position_of (t : text) (st : mstate) : Prop :=
  exists before, t = (before ++ rest st)%list /\
                 List.length before = pos st /\
                 prev st = prev_after None before.

(** What a scan of [t] for [r] reports is a match at a position of [t]. *)
Definition reported (t : text) (r : re) (m : found) : Prop :=
  exists st e, position_of t st /\ pos st = m_start m /\
               run r st Some = Some e /\
               m_end m = pos e /\
               m_after m = MState (prev e) (pos e) (rest e) [].

(** The pattern [\b w \b] for a literal [w]. *)
Definition lits (w : text) (tail : re) : re :=
  fold_right (fun c r => RCat (RLit c) r) tail w.

Definition word_pattern (w : text) : re :=
  RCat RBound (lits w (RCat RBound REmpty)).

(** [w] begins and ends with a word character. *)
Definition word_edges (w : text) : bool :=
  match w, rev w with
  | c :: _, c' :: _ => isword c && isword c'
  | _, _ => false
  end.

(** The position of [t] at offset [i], with no group captured. *)
Definition state_at (t : text) (i : nat) : mstate :=
  MState (prev_after None (firstn i t)) i (skipn i t) [].

(** No proper suffix of [w] that starts a word begins like [w]: two
    whole-word occurrences of [w] cannot overlap. *)
Definition no_self_overlap (w : text) : bool :=
  forallb
    (fun k => isword (nth (k - 1) w "000"%char) ||
              negb (Ascii.eqb (nth k w "000"%char) (nth 0 w "000"%char)))
    (seq 1 (List.length w - 1)).

(** *** A subject that grows at its end *)


(** Offset plus remaining length: the length of the whole subject. *)
Definition total (st : mstate) : nat := (pos st + List.length (rest st))%nat.


(** *** Durations *)



(** *** Results *)

(** The eight records of a non-empty transcript, in the canonical order. *)
Definition criteria_of (v : sentiment_backend) (t : text) (d : Q) : list criterion :=
  [ Criterion "Salutation Level" (fst (detect_salutation_level t)) 5
      (snd (detect_salutation_level t));
    Criterion "Keyword Presence" (fst (keyword_presence_score t 30)) 30
      (snd (keyword_presence_score t 30));
    Criterion "Flow (Order)" (fst (flow_score t 5)) 5 (snd (flow_score t 5));
    Criterion "Speech Rate (WPM)" (fst (speech_rate_score t d 10)) 10
      (snd (speech_rate_score t d 10));
    Criterion "Grammar Errors" (fst (grammar_score t 10)) 10 (snd (grammar_score t 10));
    Criterion "Vocabulary (TTR)" (fst (vocab_ttr_score t 10)) 10
      (snd (vocab_ttr_score t 10));
    Criterion "Filler Word Rate" (fst (filler_word_score t 15)) 15
      (snd (filler_word_score t 15));
    Criterion "Sentiment" (fst (sentiment_score v t 15)) 15
      (snd (sentiment_score v t 15)) ].

Definition all_analyzers : list analyzer :=
  [ SalutationAnalyzer; KeywordAnalyzer; FlowAnalyzer; SpeechRateAnalyzer;
    GrammarAnalyzer; VocabularyAnalyzer; FillerAnalyzer; SentimentAnalyzer ].

(** The result [r] has a criterion called [n] with a score equal to [q]. *)
Definition has_score (r : Q * list criterion) (n : string) (q : Q) : Prop :=
  exists c, In c (snd r) /\ name c = n /\ score c == q.

(** The result [r] has a criterion called [n] with the details [d]. *)
Definition has_details (r : Q * list criterion) (n : string) (d : details) : Prop :=
  exists c, In c (snd r) /\ name c = n /\ detail c = d.


(** *** Inputs *)

(** The patterns the scorer hands to [re]. *)
Definition scorer_patterns : list string :=
  (flat_map snd KEYWORD_MAP ++ flat_map snd SALUTATIONS ++ flat_map snd groups_map ++
   map filler_pattern FILLER_WORDS ++
   ["\w+"; "[.!?]+"; "\s+i\s+"; "\b(\w+)\s+\1\b"])%list.



End Notions.

(** ** The rubric loader of [app/rubric_loader.py] *)

Module RubricLoader.
Import PyStr PyErr Scorer.







End RubricLoader.

(** ** The runner of [app/execution.py] *)

Module Execution.
Import PyStr PyErr Scorer RubricLoader.

Local Open Scope Q_scope.


End Execution.

(** ** The simple scorer of [frontend_app.py] *)

Module Frontend.
Import PyStr PyNum.

Local Open Scope string_scope.
Local Open Scope Z_scope.

(** [int(x)] for a number: truncation towards zero. *)
Definition py_int (x : Q) : Z :=
  if Qle_bool 0 x then Qfloor x else - Qfloor (- x).

Record simple_result : Type := SimpleResult {
  overall_score : Z;
  criteria : list (string * Z)
}.

(** The loop that sanitizes the criteria: each score is clamped to 0..100.
    Every entry is a dictionary, so none is replaced. *)
Definition sanitize (criteria : list (string * Z)) : list (string * Z) :=
  map (fun c => (fst c, Z.max 0 (Z.min 100 (snd c)))) criteria.

Definition evaluate_simple (t : text) : simple_result :=
  let words := List.length (Re.findall "\w+" t) in
  let score := Z.min 100 (Z.max 5 (py_int (of_nat words * 0.65)%Q)) in
  let criteria :=
    [ ("Clarity", score - 5);
      ("Grammar", score - 8);
      ("Fluency", score - 3);
      ("Content", score) ] in
  SimpleResult score (sanitize criteria).



End Frontend.

(** ** Further notions *)

Module MoreNotions.
Import PyStr PyNum Re Scorer.

Local Open Scope string_scope.

(** The number of maximal runs of word characters in [t]; [inside] tells
    whether the character before [t] is a word character. *)
Fixpoint word_runs (inside : bool) (t : text) : nat :=
  match t with
  | [] => 0
  | c :: t' =>
    if isword c
    then (if inside then 0 else 1) + word_runs true t'
    else word_runs false t'
  end.

(** [w] occurs in [t] as a substring. *)
Definition infix (w t : text) : Prop :=
  exists before after : text, t = (before ++ w ++ after)%list.

(** The errors the grammar heuristic counts and the word estimate it
    divides by. *)
Definition grammar_sentences (t : text) : list text :=
  map strip (filter (fun s => negb (Nat.eqb (List.length (strip s)) 0))
               (Re.split "[.!?]+" t)).


Definition estimated_words (t : text) : nat :=
  match word_count t with
  | O => (Nat.max 1 (List.length (grammar_sentences t)) * 10)%nat
  | n => n
  end.

(** How many of the four groups have a position. *)
Definition defined_groups (positions : list (option Q)) : nat :=
  List.length (filter (fun p => match p with Some _ => true | None => false end)
                 positions).



(** The position behind the longest run of word characters at the start
    of [s]. *)
Fixpoint skip_word (s : text) (st : mstate) : mstate :=
  match s with
  | c :: s' => if isword c then skip_word s' (step c s' st) else with_rest s st
  | [] => with_rest [] st
  end.

(** The pattern [\w+] as compiled. *)
Definition word_re : re := RCat (RRep CWord 1) REmpty.

(** The positions of the four groups, in the order of the sequence. *)
Definition anchors (t : text) : list (option Q) :=
  map snd (group_positions (lower t)).

(** The positions that are defined. *)
Definition defined (positions : list (option Q)) : list Q :=
  flat_map (fun p => match p with Some q => [q] | None => [] end) positions.

(** One of the phrases occurs in [t] as a substring. *)
Definition contains_any (phrases : list string) (t : text) : Prop :=
  exists p, In p phrases /\ infix (of_string p) t.


(** The concepts all of whose patterns are plain phrases. *)
Definition phrase_concepts : list string :=
  ["school"; "hobby"; "interest"; "goal"; "fun_fact"].



(** The score of the simple scorer as a function of the number of words. *)
Definition simple_score (w : nat) : Z :=
  (Z.min 100 (Z.max 5 (65 * Z.of_nat w / 100)))%Z.

End MoreNotions.

(** * Properties *)

(** ** The matcher *)

Module ReFacts.
Import PyStr Re Notions.
Local Open Scope nat_scope.

(** Each pattern of the scorer lies in the fragment of the pattern syntax
    that [parse] reads. *)
Lemma scorer_patterns_parse :
  forallb (fun p => match parse p with Some _ => true | None => false end)
    scorer_patterns = true.
Proof. vm_compute. reflexivity. Qed.


(** The subject grows at its end by [sep :: phrase], where [sep] is not a
    word character. *)
Section Extension.

Variable sep : ascii.
Variable phrase : text.
Hypothesis sep_outside : isword sep = false.








End Extension.
End ReFacts.

(** ** Python numbers *)

Module NumFacts.
Import PyNum.
Local Open Scope Q_scope.

Lemma leb_le a b : leb a b = true <-> a <= b.
Proof. apply Qle_bool_iff. Qed.

Lemma leb_gt a b : leb a b = false <-> b < a.
Proof.
  unfold leb. split; intros H.
  - apply Qnot_le_lt. intros Hle. apply Qle_bool_iff in Hle. congruence.
  - destruct (Qle_bool a b) eqn:E; [|reflexivity].
    apply Qle_bool_iff in E. exfalso. exact (Qlt_not_le _ _ H E).
Qed.

Lemma ltb_lt a b : ltb a b = true <-> a < b.
Proof.
  unfold ltb. rewrite negb_true_iff. apply (leb_gt b a).
Qed.

Lemma ltb_ge a b : ltb a b = false <-> b <= a.
Proof.
  unfold ltb. rewrite negb_false_iff. apply Qle_bool_iff.
Qed.

Lemma geb_ge a b : geb a b = true <-> b <= a.
Proof. apply Qle_bool_iff. Qed.

Lemma of_nat_nonneg n : 0 <= of_nat n.
Proof. unfold of_nat, Qle; simpl; lia. Qed.

Lemma of_nat_le a b : (a <= b)%nat -> of_nat a <= of_nat b.
Proof. intros H. unfold of_nat, Qle; simpl; lia. Qed.

Lemma of_nat_pos n : (0 < n)%nat -> 0 < of_nat n.
Proof. intros H. unfold of_nat, Qlt; simpl; lia. Qed.

(** A part over the whole lies between 0 and 1. *)
Lemma ratio_bounds c t :
  (c <= t)%nat -> (0 < t)%nat -> 0 <= of_nat c / of_nat t <= 1.
Proof.
  intros Hc Ht.
  pose proof (of_nat_pos Ht). pose proof (of_nat_nonneg c). pose proof (of_nat_le Hc).
  split.
  - apply Qle_shift_div_l; [assumption | rewrite Qmult_0_l; assumption].
  - apply Qle_shift_div_r; [assumption | rewrite Qmult_1_l; assumption].
Qed.

Lemma ratio_nonneg c t : (0 < t)%nat -> 0 <= of_nat c / of_nat t.
Proof.
  intros Ht. pose proof (of_nat_pos Ht). pose proof (of_nat_nonneg c).
  apply Qle_shift_div_l; [assumption | rewrite Qmult_0_l; assumption].
Qed.


Lemma py_min_le_r a b : py_min a b <= b.
Proof.
  unfold py_min. destruct (ltb b a) eqn:E.
  - apply Qle_refl.
  - apply ltb_ge in E. assumption.
Qed.

Lemma py_min_glb a b c : c <= a -> c <= b -> c <= py_min a b.
Proof. intros Ha Hb. unfold py_min. destruct (ltb b a); assumption. Qed.


Lemma sum_from l : forall a, fold_left Qplus l a == a + sum l.
Proof.
  unfold sum. induction l as [|x l IH]; intros a; simpl.
  - lra.
  - rewrite (IH (a + x)), (IH (0 + x)). lra.
Qed.

Lemma sum_cons x l : sum (x :: l) == x + sum l.
Proof. unfold sum at 1. simpl. rewrite sum_from. lra. Qed.

Lemma sum_nil : sum [] == 0.
Proof. reflexivity. Qed.

End NumFacts.

(** ** Binary64 *)

Module Float64Facts.
Import PyStr PyErr Binary64 Scorer Scorer64 Notions.
Local Open Scope string_scope.
Local Open Scope Z_scope.

(** *** The order *)






(** *** Rounding *)



Lemma loc_of_record m l :
  loc_of_shr_record (shr_record_of_loc m l) = l.
Proof. destruct l as [|[| |]]; reflexivity. Qed.











(** *** Where the speech-rate analyzer returns *)









End Float64Facts.

(** ** The analyzers *)

Module ScorerFacts.
Import PyStr PyNum NumFacts Scorer.
Local Open Scope Q_scope.

Ltac closed_cmp := unfold Qle, Qlt, Qeq; simpl; lia.

Lemma salutation_bounds t : 0 <= fst (detect_salutation_level t) <= 5.
Proof.
  unfold detect_salutation_level.
  repeat match goal with |- context [if ?b then _ else _] => destruct b end;
    simpl; split; closed_cmp.
Qed.

Lemma keyword_raw_nonneg m o : 0 <= keyword_raw_score m o.
Proof.
  unfold keyword_raw_score; simpl.
  pose proof (@ratio_nonneg m 6 ltac:(lia)).
  pose proof (@ratio_nonneg o 3 ltac:(lia)).
  change (of_nat 6) with 6 in *. change (of_nat 3) with 3 in *.
  lra.
Qed.

Lemma keyword_bounds t : 0 <= fst (keyword_presence_score t 30) <= 30.
Proof.
  unfold keyword_presence_score; simpl. split.
  - apply py_min_glb; [apply keyword_raw_nonneg | closed_cmp].
  - apply py_min_le_r.
Qed.

Lemma compare_pair_inv positions i j acc :
  (fst acc <= snd acc)%nat ->
  (fst (compare_pair positions i j acc) <= snd (compare_pair positions i j acc))%nat.
Proof.
  intros H. unfold compare_pair.
  destruct (position positions _) as [p1|]; [|assumption].
  destruct (position positions _) as [p2|]; [|assumption].
  destruct (ltb p1 p2); simpl; lia.
Qed.

Lemma count_pairs_inv positions :
  (fst (count_pairs positions) <= snd (count_pairs positions))%nat.
Proof.
  unfold count_pairs; simpl.
  repeat apply compare_pair_inv. simpl. lia.
Qed.

Lemma flow_bounds t : 0 <= fst (flow_score t 5) <= 5.
Proof.
  unfold flow_score.
  pose proof (count_pairs_inv (group_positions (_lower_and_clean t))) as Hinv.
  destruct (count_pairs (group_positions (_lower_and_clean t))) as [c n].
  simpl in Hinv.
  destruct (Nat.eqb n 0) eqn:En.
  - destruct (position _ "basic"); simpl; split; closed_cmp.
  - apply Nat.eqb_neq in En. simpl.
    pose proof (@ratio_bounds c n Hinv ltac:(lia)). lra.
Qed.

Lemma speech_rate_values t d :
  fst (speech_rate_score t d 10) = 10 \/
  fst (speech_rate_score t d 10) = 6 \/
  fst (speech_rate_score t d 10) = 2.
Proof.
  unfold speech_rate_score; simpl.
  repeat match goal with |- context [if ?b then _ else _] => destruct b end; auto.
Qed.

Lemma speech_rate_bounds t d : 2 <= fst (speech_rate_score t d 10) <= 10.
Proof.
  destruct (speech_rate_values t d) as [H|[H|H]]; rewrite H; split; closed_cmp.
Qed.

Lemma grammar_bounds t : 0 <= fst (grammar_score t 10) <= 10.
Proof.
  unfold grammar_score. cbv zeta. cbn [fst].
  set (errors := (_ + _ + _ + _)%nat).
  set (words := match word_count t with O => _ | S n => _ end).
  assert (Hw : (0 < words)%nat).
  { unfold words. destruct (word_count t); lia. }
  pose proof (@ratio_nonneg errors words Hw) as Hr.
  assert (Hrate : 0 <= of_nat errors / of_nat words * 100)
    by (apply Qmult_le_0_compat; [exact Hr | closed_cmp]).
  set (rate := of_nat errors / of_nat words * 100) in *.
  assert (H0 : 0 <= rate / 10.0)
    by (apply Qmult_le_0_compat; [exact Hrate | closed_cmp]).
  pose proof (py_min_le_r (rate / 10.0) 1.0).
  pose proof (@py_min_glb (rate / 10.0) 1.0 0 H0 ltac:(closed_cmp)).
  assert (E : 1.0 == 1) by reflexivity.
  lra.
Qed.

Lemma vocab_bounds t : 0 <= fst (vocab_ttr_score t 10) <= 10.
Proof.
  unfold vocab_ttr_score.
  repeat match goal with |- context [if ?b then _ else _] => destruct b end;
    simpl; split; closed_cmp.
Qed.

Lemma filler_bounds t : 0 <= fst (filler_word_score t 15) <= 15.
Proof.
  unfold filler_word_score.
  destruct (count_fillers t FILLER_WORDS) as [n l].
  repeat match goal with |- context [if ?b then _ else _] => destruct b end;
    simpl; split; closed_cmp.
Qed.

Lemma sentiment_bounds v t : 3 <= fst (sentiment_score v t 15) <= 15.
Proof.
  unfold sentiment_score.
  destruct (compound_of v t) as [c m].
  repeat match goal with |- context [if ?b then _ else _] => destruct b end;
    simpl; split; closed_cmp.
Qed.

End ScorerFacts.

(** ** The aggregator *)

Module EvaluateFacts.
Import PyStr PyNum NumFacts Scorer ScorerFacts Notions Float64Facts.
Local Open Scope string_scope.
Local Open Scope Q_scope.

Lemma traced_nonempty v t r d :
  t <> [] ->
  evaluate_transcript_traced v (PyStr t) r d =
  ((sum (map score (criteria_of v t d)), criteria_of v t d), all_analyzers).
Proof.
  intros Ht. destruct t as [|c t]; [congruence|].
  unfold evaluate_transcript_traced, criteria_of.
  cbn [truthy is_str List.length Nat.eqb negb orb].
  destruct (detect_salutation_level (c :: t)), (keyword_presence_score (c :: t) 30),
    (flow_score (c :: t) 5), (speech_rate_score (c :: t) d 10),
    (grammar_score (c :: t) 10), (vocab_ttr_score (c :: t) 10),
    (filler_word_score (c :: t) 15), (sentiment_score v (c :: t) 15).
  reflexivity.
Qed.

Lemma evaluate_nonempty v t r d :
  t <> [] ->
  evaluate_transcript v (PyStr t) r d =
  (sum (map score (criteria_of v t d)), criteria_of v t d).
Proof.
  intros Ht. unfold evaluate_transcript. rewrite traced_nonempty by assumption.
  reflexivity.
Qed.

Lemma traced_rejected v o r d :
  o = PyStr [] \/ is_str o = false ->
  evaluate_transcript_traced v o r d = ((0.0, []), []).
Proof.
  intros [->|H]; [reflexivity|].
  unfold evaluate_transcript_traced. rewrite H.
  rewrite orb_true_r. reflexivity.
Qed.

(** A transcript is rejected or it is a non-empty string. *)
Lemma transcript_cases o :
  (o = PyStr [] \/ is_str o = false) \/ (exists t, o = PyStr t /\ t <> []).
Proof.
  destruct o; try (left; right; reflexivity).
  destruct s as [|c s].
  - left; left; reflexivity.
  - right. exists (c :: s). split; [reflexivity|discriminate].
Qed.


Lemma total_bounds v t d :
  5 <= sum (map score (criteria_of v t d)) <= 100.
Proof.
  unfold criteria_of. cbn [map score].
  repeat rewrite sum_cons. rewrite sum_nil.
  pose proof (salutation_bounds t). pose proof (keyword_bounds t).
  pose proof (flow_bounds t). pose proof (speech_rate_bounds t d).
  pose proof (grammar_bounds t). pose proof (vocab_bounds t).
  pose proof (filler_bounds t). pose proof (sentiment_bounds v t).
  lra.
Qed.

(** C1.  For every input, the total that [evaluate_transcript] returns is
    the sum of the scores of the criterion records it returns, and it lies
    between 0 and 100. *)
Theorem evaluate_total_is_bounded_sum
    (v : sentiment_backend) (transcript rubric_df : pyobj) (d : Q) :
  fst (evaluate_transcript v transcript rubric_df d) ==
    sum (map score (snd (evaluate_transcript v transcript rubric_df d))) /\
  0 <= fst (evaluate_transcript v transcript rubric_df d) <= 100.
Proof.
  destruct (transcript_cases transcript) as [Hrej|[t [-> Ht]]].
  - unfold evaluate_transcript. rewrite (traced_rejected v rubric_df d Hrej).
    cbn [fst snd map]. repeat split; closed_cmp.
  - rewrite (evaluate_nonempty v rubric_df d Ht). cbn [fst snd].
    pose proof (total_bounds v t d). split; [reflexivity|lra].
Qed.





(** A non-empty string, in contrast, goes through all eight analyzers. *)
Lemma evaluate_invokes_all v t r d :
  t <> [] -> invoked v (PyStr t) r d = all_analyzers.
Proof.
  intros Ht. unfold invoked. rewrite traced_nonempty by assumption. reflexivity.
Qed.

(** C9.  The rubric argument has no influence: for any two values of
    [rubric_df], [evaluate_transcript] returns the same total and the same
    criterion records (names, scores, weights and details). *)
Theorem evaluate_ignores_rubric
    (v : sentiment_backend) (transcript rubric1 rubric2 : pyobj) (d : Q) :
  evaluate_transcript v transcript rubric1 d =
  evaluate_transcript v transcript rubric2 d.
Proof.
  unfold evaluate_transcript, evaluate_transcript_traced.
  destruct (negb (truthy transcript) || negb (is_str transcript)); reflexivity.
Qed.



End EvaluateFacts.

(** ** Where the matches of a scan lie *)

Module ScanFacts.
Import PyStr Re Notions.
Local Open Scope nat_scope.

Lemma prev_after_snoc p l c : prev_after p (l ++ [c]) = Some c.
Proof. unfold prev_after. rewrite fold_left_app. reflexivity. Qed.

Lemma prev_after_app p l l' :
  prev_after p (l ++ l') = prev_after (prev_after p l) l'.
Proof. unfold prev_after. apply fold_left_app. Qed.

Lemma prev_after_rev l : prev_after None l = hd_error (rev l).
Proof.
  induction l as [|c l _] using rev_ind; [reflexivity|].
  rewrite prev_after_snoc, rev_app_distr. reflexivity.
Qed.

Lemma position_start t : position_of t (start_state t).
Proof. exists []. repeat split. Qed.

Lemma position_step t c s st :
  position_of t (with_rest (c :: s) st) -> position_of t (step c s st).
Proof.
  intros [before [Ht [Hl Hp]]]. simpl in *.
  exists (before ++ [c]). simpl. repeat split.
  - rewrite <- app_assoc. exact Ht.
  - rewrite length_app. simpl. lia.
  - rewrite prev_after_snoc. reflexivity.
Qed.

Lemma position_caps t st l :
  position_of t st -> position_of t (MState (prev st) (pos st) (rest st) l).
Proof. intros [before H]. exists before. exact H. Qed.

Lemma position_with_rest t st :
  position_of t st -> position_of t (with_rest (rest st) st).
Proof. apply position_caps. Qed.

Section Subject.

Variable t : text.

Lemma lit_inv w : forall s st k res,
  position_of t (with_rest s st) ->
  lit w s st k = Some res ->
  exists e, position_of t e /\ k e = Some res /\
            s = w ++ rest e /\ prev e = prev_after (prev st) w.
Proof.
  induction w as [|c w IH]; intros s st k res Hst H; simpl in H.
  - exists (with_rest s st). repeat split; assumption.
  - destruct s as [|c' s]; [discriminate|].
    destruct (Ascii.eqb c c') eqn:E; [|discriminate].
    apply Ascii.eqb_eq in E. subst c'.
    destruct (IH s (step c s st) k res (position_step Hst) H)
      as [e [He [Hk [Hs Hp]]]].
    exists e. repeat split; try assumption.
    simpl. f_equal. exact Hs.
Qed.

Lemma rep_inv cs : forall s min st k res,
  position_of t (with_rest s st) ->
  rep cs min s st k = Some res ->
  exists e, position_of t e /\ k e = Some res.
Proof.
  induction s as [|c s IH]; intros min st k res Hst H; simpl in H.
  - destruct (Nat.eqb min 0); [|discriminate].
    exists (with_rest [] st). split; assumption.
  - assert (Hhere : (if Nat.eqb min 0 then k (with_rest (c :: s) st) else None) = Some res ->
                    exists e, position_of t e /\ k e = Some res).
    { destruct (Nat.eqb min 0); [|discriminate].
      intros Hk. exists (with_rest (c :: s) st). split; assumption. }
    destruct (in_cset cs c); [|exact (Hhere H)].
    destruct (rep cs (Nat.pred min) s (step c s st) k) eqn:Hin.
    + injection H as <-.
      exact (IH _ _ _ _ (position_step Hst) Hin).
    + exact (Hhere H).
Qed.

(** A successful run hands a position of the subject to its continuation. *)
Lemma run_inv r : forall st k res,
  position_of t st ->
  run r st k = Some res ->
  exists e, position_of t e /\ k e = Some res.
Proof.
  induction r as [|c|cs| |cs min|n r IH|n|a IHa b IHb|a IHa b IHb];
    intros st k res Hst H; cbn [run] in H.
  - exists st. split; assumption.
  - destruct (@lit_inv [c] (rest st) st k res (position_with_rest Hst) H) as [e [He [Hk _]]].
    exists e. split; assumption.
  - destruct (rest st) as [|c s] eqn:Hr; [discriminate|].
    destruct (in_cset cs c); [|discriminate].
    exists (step c s st). split; [|assumption].
    apply position_step. rewrite <- Hr. apply position_with_rest. assumption.
  - destruct (at_boundary st); [|discriminate].
    exists st. split; assumption.
  - exact (@rep_inv cs (rest st) min st k res (position_with_rest Hst) H).
  - destruct (IH _ _ _ Hst H) as [e [He Hk]].
    exists (set_cap n (firstn (pos e - pos st) (rest st)) e).
    split; [|assumption]. apply (position_caps _ He).
  - destruct (get_cap n (caps st)) as [w|]; [|discriminate].
    destruct (@lit_inv w (rest st) st k res (position_with_rest Hst) H) as [e [He [Hk _]]].
    exists e. split; assumption.
  - destruct (IHa _ _ _ Hst H) as [m [Hm Hk]].
    exact (IHb _ _ _ Hm Hk).
  - destruct (run a st k) eqn:Ha.
    + injection H as <-. exact (IHa _ _ _ Hst Ha).
    + exact (IHb _ _ _ Hst H).
Qed.

Lemma search_from_sound r : forall s st m,
  position_of t (with_rest s st) ->
  search_from r s st = Some m ->
  reported t r m.
Proof.
  induction s as [|c s IH]; intros st m Hst H; simpl in H.
  - destruct (run r (with_rest [] st) Some) as [e|] eqn:Hr; [|discriminate].
    injection H as <-. exists (with_rest [] st), e. repeat split; assumption.
  - destruct (run r (with_rest (c :: s) st) Some) as [e|] eqn:Hr.
    + injection H as <-. exists (with_rest (c :: s) st), e. repeat split; assumption.
    + apply (IH (step c s st) m); [|assumption].
      apply (position_step Hst).
Qed.

Lemma reported_after r m : reported t r m -> position_of t (m_after m).
Proof.
  intros [st [e [Hst [_ [Hr [_ ->]]]]]].
  destruct (@run_inv r st Some e Hst Hr) as [e' [He' Hk]].
  injection Hk as ->. apply (position_caps _ He').
Qed.

Lemma scan_sound r : forall fuel st m,
  position_of t st ->
  In m (scan fuel r st) ->
  reported t r m.
Proof.
  induction fuel as [|fuel IH]; intros st m Hst Hin; simpl in Hin; [contradiction|].
  destruct (search_from r (rest st) st) as [m0|] eqn:Hs; [|contradiction].
  pose proof (@search_from_sound r (rest st) st m0 (position_with_rest Hst) Hs) as Hm0.
  destruct Hin as [<-|Hin]; [assumption|].
  pose proof (reported_after Hm0) as Hafter.
  destruct (Nat.eqb (m_end m0) (m_start m0)).
  - destruct (rest (m_after m0)) as [|c s] eqn:Hr; [contradiction|].
    apply (IH (step c s (m_after m0)) m); [|assumption].
    apply position_step. rewrite <- Hr. apply position_with_rest. assumption.
  - exact (IH _ _ Hafter Hin).
Qed.

Lemma finditer_sound p m :
  In m (finditer p t) -> reported t (compile p) m.
Proof.
  unfold finditer. apply scan_sound. apply position_start.
Qed.

(** A run of the literal [w] followed by [\b] reads [w] and stops at a
    boundary. *)
Lemma lits_inv w : forall m k res,
  run (lits w (RCat RBound REmpty)) m k = Some res ->
  exists e', rest m = w ++ rest e' /\
             prev e' = prev_after (prev m) w /\
             at_boundary e' = true.
Proof.
  induction w as [|c w IHw]; intros m k res Hrun; simpl in Hrun.
  - destruct (at_boundary m) eqn:Hbm; [|discriminate].
    exists m. repeat split. assumption.
  - destruct (rest m) as [|c' s] eqn:Hr; [discriminate|].
    destruct (Ascii.eqb c c') eqn:E; [|discriminate].
    apply Ascii.eqb_eq in E. subst c'.
    destruct (IHw _ _ _ Hrun) as [e' [Hs [Hp Hb']]].
    exists e'. simpl in Hs. rewrite Hs. repeat split; assumption.
Qed.

(** A match of [\b w \b] is a whole-word occurrence of [w]. *)
Lemma word_pattern_sound w st e :
  word_edges w = true ->
  position_of t st ->
  run (word_pattern w) st Some = Some e ->
  Spec.whole_word_at w t (pos st).
Proof.
  intros Hw Hst H. unfold word_pattern in H. simpl in H.
  destruct (at_boundary st) eqn:Hb; [|discriminate].
  destruct (lits_inv w st Some H) as [e' [Hs [Hp Hb']]].
  destruct Hst as [before [Ht [Hlen Hprev]]].
  exists before, (rest e'). repeat split.
  - rewrite Ht, Hs. reflexivity.
  - assumption.
  - (* the left edge *)
    unfold Spec.ends_outside_word.
    rewrite prev_after_rev in Hprev.
    unfold word_edges in Hw. destruct w as [|c w]; [discriminate|].
    destruct (rev (c :: w)) as [|c' w'] eqn:Hrev; [discriminate|].
    apply andb_true_iff in Hw. destruct Hw as [Hc Hc'].
    unfold at_boundary, word_before, word_after in Hb.
    rewrite Hs in Hb. simpl in Hb. rewrite Hc in Hb.
    destruct (rev before) as [|x xs]; [exact I|].
    rewrite Hprev in Hb. simpl in Hb.
    destruct (isword x); [discriminate|reflexivity].
  - (* the right edge *)
    unfold Spec.starts_outside_word.
    unfold word_edges in Hw. destruct w as [|c w]; [discriminate|].
    destruct (rev (c :: w)) as [|c' w'] eqn:Hrev; [discriminate|].
    apply andb_true_iff in Hw. destruct Hw as [Hc Hc'].
    assert (Hlast : prev_after (prev st) (c :: w) = Some c').
    { replace (c :: w) with (rev w' ++ [c']).
      - apply prev_after_snoc.
      - rewrite <- (rev_involutive (c :: w)), Hrev. reflexivity. }
    unfold at_boundary, word_before, word_after in Hb'.
    rewrite Hp, Hlast, Hc' in Hb'.
    destruct (rest e') as [|y ys]; [exact I|].
    simpl in Hb'. destruct (isword y); [discriminate|reflexivity].
Qed.

End Subject.

(** *** The leftmost match and the matches of a whole word *)

Lemma state_at_position t i : i <= List.length t -> position_of t (state_at t i).
Proof.
  intros Hi. exists (firstn i t). simpl. repeat split.
  - symmetry. apply firstn_skipn.
  - apply firstn_length_le. assumption.
Qed.

(** A position without captured group is the position at its offset. *)
Lemma position_state_at t st :
  position_of t st -> caps st = [] ->
  st = state_at t (pos st) /\ pos st <= List.length t.
Proof.
  intros [before [Ht [Hl Hp]]] Hc. destruct st as [p i s c]. simpl in *. subst c.
  assert (Hb : firstn i t = before).
  { rewrite Ht, <- Hl. rewrite firstn_app, Nat.sub_diag, firstn_all. simpl.
    apply app_nil_r. }
  assert (Hs : skipn i t = s).
  { rewrite Ht, <- Hl. rewrite skipn_app, Nat.sub_diag, skipn_all. reflexivity. }
  unfold state_at. rewrite Hb, Hs, Hp. split; [reflexivity|].
  rewrite Ht, length_app. lia.
Qed.

Lemma state_at_step t i c s :
  skipn i t = c :: s ->
  step c s (state_at t i) = state_at t (S i).
Proof.
  intros Hs. unfold step, state_at. simpl pos. simpl caps.
  assert (Ht : t = firstn i t ++ c :: s) by (rewrite <- Hs; symmetry; apply firstn_skipn).
  assert (Hi : i < List.length t).
  { destruct (Nat.lt_ge_cases i (List.length t)) as [H|H]; [assumption|].
    rewrite (skipn_all2 t H) in Hs. discriminate. }
  assert (Hf : firstn (S i) t = firstn i t ++ [c]).
  { rewrite Ht at 1. rewrite firstn_app.
    rewrite firstn_length_le by lia.
    rewrite (firstn_all2 (n := S i) (firstn i t)) by (rewrite firstn_length_le; lia).
    replace (S i - i) with 1 by lia. reflexivity. }
  assert (Hk : skipn (S i) t = s).
  { replace (S i) with (1 + i) by lia. rewrite <- skipn_skipn, Hs. reflexivity. }
  rewrite Hf, Hk, prev_after_snoc. reflexivity.
Qed.

Section Leftmost.

Variable t : text.
Variable r : re.

(** The leftmost match from offset [i] on: found with nothing before it,
    or absent altogether. *)
Lemma search_from_least : forall s i,
  skipn i t = s -> i <= List.length t ->
  match search_from r s (state_at t i) with
  | Some m =>
    i <= m_start m <= List.length t /\
    (exists e, run r (state_at t (m_start m)) Some = Some e /\
               m_end m = pos e /\
               m_after m = MState (prev e) (pos e) (rest e) []) /\
    (forall j, i <= j < m_start m -> run r (state_at t j) Some = None)
  | None =>
    forall j, i <= j <= List.length t -> run r (state_at t j) Some = None
  end.
Proof.
  induction s as [|c s IH]; intros i Hs Hi.
  - assert (Hw : with_rest [] (state_at t i) = state_at t i)
      by (unfold with_rest, state_at; simpl; rewrite Hs; reflexivity).
    simpl. rewrite Hw.
    destruct (run r (state_at t i) Some) as [e|] eqn:Hr; simpl.
    + repeat split; [lia|assumption| |intros j Hj; lia].
      exists e. repeat split. assumption.
    + intros j Hj.
      assert (Hlen : List.length (skipn i t) = 0) by (rewrite Hs; reflexivity).
      rewrite length_skipn in Hlen.
      replace j with i by lia. assumption.
  - assert (Hw : with_rest (c :: s) (state_at t i) = state_at t i)
      by (unfold with_rest, state_at; simpl; rewrite Hs; reflexivity).
    simpl. rewrite Hw.
    destruct (run r (state_at t i) Some) as [e|] eqn:Hr; simpl.
    + repeat split; [lia|assumption| |intros j Hj; lia].
      exists e. repeat split. assumption.
    + rewrite (state_at_step t i Hs).
      assert (Hs' : skipn (S i) t = s).
      { replace (S i) with (1 + i) by lia. rewrite <- skipn_skipn, Hs. reflexivity. }
      assert (Hi' : S i <= List.length t).
      { assert (Hlen : List.length (skipn i t) = S (List.length s)) by (rewrite Hs; reflexivity).
        rewrite length_skipn in Hlen. lia. }
      specialize (IH (S i) Hs' Hi').
      destruct (search_from r s (state_at t (S i))) as [m|].
      * destruct IH as [H1 [H2 H3]]. repeat split; [lia|lia|assumption|].
        intros j Hj. destruct (Nat.eq_dec j i) as [->|Hne]; [assumption|].
        apply H3. lia.
      * intros j Hj. destruct (Nat.eq_dec j i) as [->|Hne]; [assumption|].
        apply IH. lia.
Qed.

End Leftmost.

(** *** Scans for a whole word *)

Lemma lits_run w : forall tail m k s',
  rest m = w ++ s' ->
  run (lits w tail) m k =
  run tail (MState (prev_after (prev m) w) (pos m + List.length w) s' (caps m)) k.
Proof.
  induction w as [|c w IH]; intros tail m k s' Hm.
  - destruct m as [p i s cs]. simpl in *. subst s.
    rewrite Nat.add_0_r. reflexivity.
  - cbn [lits fold_right run lit]. rewrite Hm. cbn [app].
    rewrite Ascii.eqb_refl.
    change (fold_right (fun c0 r0 => RCat (RLit c0) r0) tail w) with (lits w tail).
    rewrite (IH tail (with_rest (w ++ s') (step c (w ++ s') m)) k s' eq_refl).
    cbn [prev pos caps with_rest step List.length].
    replace (S (pos m) + List.length w) with (pos m + S (List.length w)) by lia.
    reflexivity.
Qed.

Lemma whole_word_parts w t i :
  Spec.whole_word_at w t i ->
  exists before after,
    t = before ++ w ++ after /\ List.length before = i /\
    firstn i t = before /\ skipn i t = w ++ after /\
    Spec.ends_outside_word before /\ Spec.starts_outside_word after.
Proof.
  intros [before [after [Ht [Hl [Hb Ha]]]]].
  exists before, after. repeat split; try assumption.
  - rewrite Ht, <- Hl, firstn_app, Nat.sub_diag, firstn_all. simpl. apply app_nil_r.
  - rewrite Ht, <- Hl, skipn_app, Nat.sub_diag, skipn_all. reflexivity.
Qed.

Lemma word_edges_parts w :
  word_edges w = true ->
  exists c w' c' w'', w = c :: w' /\ rev w = c' :: w'' /\
                      isword c = true /\ isword c' = true.
Proof.
  unfold word_edges. destruct w as [|c w']; [discriminate|].
  destruct (rev (c :: w')) as [|c' w''] eqn:Hr; [discriminate|].
  intros H. apply andb_true_iff in H. destruct H as [Hc Hc'].
  exists c, w', c', w''. repeat split; assumption.
Qed.

(** A whole-word occurrence of [w] at offset [i] is matched by the pattern
    of [w] there, up to the offset behind the word. *)
Lemma word_pattern_matches w t i :
  word_edges w = true ->
  Spec.whole_word_at w t i ->
  run (word_pattern w) (state_at t i) Some = Some (state_at t (i + List.length w)).
Proof.
  intros Hw Hocc.
  destruct (whole_word_parts Hocc) as [before [after [Ht [Hl [Hf [Hs [Hb Ha]]]]]]].
  destruct (word_edges_parts w Hw) as [c [w' [c' [w'' [Ew [Er [Hc Hc']]]]]]].
  assert (Hlast : forall p, prev_after p w = Some c').
  { intros p. replace w with (rev w'' ++ [c']).
    - apply prev_after_snoc.
    - rewrite <- (rev_involutive w), Er. reflexivity. }
  unfold word_pattern. cbn [run].
  assert (B1 : at_boundary (state_at t i) = true).
  { unfold at_boundary, word_before, word_after, state_at. cbn [prev rest].
    rewrite Hf, Hs, Ew. cbn [app]. rewrite Hc.
    rewrite prev_after_rev. unfold Spec.ends_outside_word in Hb.
    destruct (rev before) as [|x xs]; [reflexivity|]. cbn [hd_error]. rewrite Hb.
    reflexivity. }
  rewrite B1.
  rewrite (lits_run w (RCat RBound REmpty) (state_at t i) Some after Hs).
  cbn [run].
  assert (E : MState (prev_after (prev (state_at t i)) w)
                (pos (state_at t i) + List.length w) after (caps (state_at t i))
              = state_at t (i + List.length w)).
  { unfold state_at. cbn [prev pos caps].
    assert (Hf' : firstn (i + List.length w) t = before ++ w).
    { rewrite Ht, app_assoc, <- Hl, <- length_app, firstn_app, Nat.sub_diag,
        firstn_all. simpl. apply app_nil_r. }
    assert (Hs' : skipn (i + List.length w) t = after).
    { rewrite Ht, app_assoc, <- Hl, <- length_app, skipn_app, Nat.sub_diag,
        skipn_all. reflexivity. }
    rewrite Hf', Hs', Hf, prev_after_app. reflexivity. }
  rewrite E.
  assert (B2 : at_boundary (state_at t (i + List.length w)) = true).
  { rewrite <- E. unfold at_boundary, word_before, word_after. cbn [prev rest].
    rewrite Hlast, Hc'. unfold Spec.starts_outside_word in Ha.
    destruct after as [|y ys]; [reflexivity|]. rewrite Ha. reflexivity. }
  rewrite B2. reflexivity.
Qed.

(** Conversely, where the pattern of [w] matches, [w] occurs as a whole word. *)
Lemma word_pattern_occurs w t i :
  word_edges w = true -> i <= List.length t ->
  run (word_pattern w) (state_at t i) Some <> None ->
  Spec.whole_word_at w t i.
Proof.
  intros Hw Hi Hrun.
  destruct (run (word_pattern w) (state_at t i) Some) as [e|] eqn:Hr; [|congruence].
  exact (@word_pattern_sound t w (state_at t i) e Hw (state_at_position t Hi) Hr).
Qed.

Lemma nth_last_outside (b : text) d :
  b <> [] -> Spec.ends_outside_word b ->
  isword (nth (List.length b - 1) b d) = false.
Proof.
  intros Hb Ho. unfold Spec.ends_outside_word in Ho.
  destruct (rev b) as [|c l] eqn:Hr.
  - exfalso. apply Hb. rewrite <- (rev_involutive b), Hr. reflexivity.
  - assert (E : b = rev l ++ [c]) by (rewrite <- (rev_involutive b), Hr; reflexivity).
    rewrite E, length_app, app_nth2; rewrite ?length_rev; cbn [List.length]; [|lia].
    replace (List.length l + 1 - 1 - List.length l) with 0 by lia. exact Ho.
Qed.

(** Two whole-word occurrences of [w] do not overlap. *)
Lemma occurrences_apart w t j i :
  word_edges w = true -> no_self_overlap w = true ->
  Spec.whole_word_at w t j -> Spec.whole_word_at w t i ->
  j < i -> j + List.length w <= i.
Proof.
  intros Hw Hno Hj Hi Hlt.
  destruct (Nat.le_gt_cases (j + List.length w) i) as [H|H]; [assumption|exfalso].
  destruct (whole_word_parts Hj) as [b1 [a1 [Ht1 [Hl1 _]]]].
  destruct (whole_word_parts Hi) as [b2 [a2 [Ht2 [Hl2 [_ [_ [Hb2 _]]]]]]].
  destruct (word_edges_parts w Hw) as [c [w' [c' [w'' [Ew [_ [Hc _]]]]]]].
  set (d := "000"%char).
  set (k := i - j).
  assert (Hk : 1 <= k < List.length w) by (unfold k; lia).
  (* the character before offset [i], read in both decompositions *)
  assert (Hprev : isword (nth (k - 1) w d) = false).
  { assert (Hb2ne : b2 <> []) by (intros E; rewrite E in Hl2; simpl in Hl2; lia).
    pose proof (nth_last_outside d Hb2ne Hb2) as Hx.
    assert (E2 : nth (i - 1) t d = nth (List.length b2 - 1) b2 d).
    { rewrite Ht2, app_nth1 by lia. rewrite Hl2. reflexivity. }
    assert (E1 : nth (i - 1) t d = nth (k - 1) w d).
    { rewrite Ht1, app_nth2 by lia. rewrite app_nth1 by lia.
      f_equal. unfold k. lia. }
    rewrite <- E1, E2. exact Hx. }
  (* the character at offset [i], read in both decompositions *)
  assert (Hat : nth k w d = nth 0 w d).
  { assert (E2 : nth i t d = nth 0 w d).
    { rewrite Ht2, app_nth2 by lia. rewrite app_nth1 by (rewrite Ew; simpl; lia).
      f_equal. lia. }
    assert (E1 : nth i t d = nth k w d).
    { rewrite Ht1, app_nth2 by lia. rewrite app_nth1 by lia.
      f_equal. unfold k. lia. }
    rewrite <- E1, E2. reflexivity. }
  unfold no_self_overlap in Hno. rewrite forallb_forall in Hno.
  assert (Hin : In k (seq 1 (List.length w - 1))) by (apply in_seq; lia).
  specialize (Hno k Hin). fold d in Hno.
  rewrite Hprev, Hat, Ascii.eqb_refl in Hno. discriminate.
Qed.

Section WordScan.

Variable t : text.
Variable w : text.
Hypothesis edges : word_edges w = true.
Hypothesis apart : no_self_overlap w = true.

Lemma word_nonempty : 0 < List.length w.
Proof.
  destruct (word_edges_parts w edges) as [c [w' [_ [_ [-> _]]]]]. simpl. lia.
Qed.

(** One step of a scan for [w] from offset [p]. *)
Lemma scan_word_step fuel p :
  p <= List.length t ->
  scan (S fuel) (word_pattern w) (state_at t p) = [] /\
    (forall j, p <= j -> ~ Spec.whole_word_at w t j)
  \/
  exists m j,
    scan (S fuel) (word_pattern w) (state_at t p) =
      m :: scan fuel (word_pattern w) (state_at t (j + List.length w)) /\
    m_start m = j /\ p <= j /\ j + List.length w <= List.length t /\
    Spec.whole_word_at w t j /\
    (forall j', p <= j' < j -> ~ Spec.whole_word_at w t j').
Proof.
  intros Hp. cbn [scan].
  change (rest (state_at t p)) with (skipn p t).
  pose proof (@search_from_least t (word_pattern w) (skipn p t) p eq_refl Hp) as Hs.
  destruct (search_from (word_pattern w) (skipn p t) (state_at t p)) as [m|].
  - right. destruct Hs as [[H1 H2] [[e [He [Hend Hafter]]] Hnone]].
    assert (Hocc : Spec.whole_word_at w t (m_start m))
      by (apply word_pattern_occurs; [assumption|assumption|congruence]).
    rewrite (word_pattern_matches edges Hocc) in He. injection He as <-.
    cbn [pos prev rest state_at] in Hend, Hafter.
    exists m, (m_start m).
    pose proof word_nonempty as Hne.
    assert (Hlen : m_start m + List.length w <= List.length t).
    { destruct Hocc as [b [a [Ht [Hl _]]]]. rewrite Ht, !length_app. lia. }
    repeat split; try assumption.
    + rewrite Hend.
      replace (Nat.eqb (m_start m + List.length w) (m_start m)) with false
        by (symmetry; apply Nat.eqb_neq; lia).
      rewrite Hafter. reflexivity.
    + intros j' Hj' Hocc'.
      pose proof (word_pattern_matches edges Hocc') as Hm.
      rewrite (Hnone j' Hj') in Hm. discriminate.
  - left. split; [reflexivity|].
    intros j Hj Hocc.
    pose proof (word_pattern_matches edges Hocc) as Hm.
    assert (Hlen : j <= List.length t).
    { destruct Hocc as [b [a [Ht [Hl _]]]]. rewrite Ht, !length_app. lia. }
    rewrite (Hs j (conj Hj Hlen)) in Hm. discriminate.
Qed.

(** Every whole-word occurrence from offset [p] on is reported. *)
Lemma scan_word_complete : forall fuel p i,
  p <= i -> List.length t - p < fuel ->
  Spec.whole_word_at w t i ->
  exists m, In m (scan fuel (word_pattern w) (state_at t p)) /\ m_start m = i.
Proof.
  induction fuel as [|fuel IH]; intros p i Hpi Hfuel Hocc; [lia|].
  assert (Hi : i + List.length w <= List.length t).
  { destruct Hocc as [b [a [Ht [Hl _]]]]. rewrite Ht, !length_app. lia. }
  destruct (@scan_word_step fuel p ltac:(lia)) as [[_ Hnone]|[m [j [Hscan [Hm [Hpj [Hj [Hoccj Hbefore]]]]]]]].
  - exfalso. exact (Hnone i Hpi Hocc).
  - rewrite Hscan.
    destruct (Nat.eq_dec j i) as [->|Hne].
    + exists m. split; [left; reflexivity|assumption].
    + assert (Hlt : j < i).
      { destruct (Nat.lt_ge_cases i j) as [H|H]; [|lia].
        exfalso. exact (Hbefore i (conj Hpi H) Hocc). }
      pose proof (occurrences_apart edges apart Hoccj Hocc Hlt) as Hap.
      pose proof word_nonempty as Hne'.
      destruct (IH (j + List.length w) i Hap ltac:(lia) Hocc) as [m' [Hin Hm']].
      exists m'. split; [right; assumption|assumption].
Qed.

(** The matches of a scan start at increasing offsets, from [p] on. *)
Lemma scan_word_increasing : forall fuel p,
  p <= List.length t ->
  StronglySorted lt (map m_start (scan fuel (word_pattern w) (state_at t p))) /\
  Forall (fun j => p <= j) (map m_start (scan fuel (word_pattern w) (state_at t p))).
Proof.
  induction fuel as [|fuel IH]; intros p Hp.
  - split; constructor.
  - destruct (@scan_word_step fuel p Hp) as [[-> _]|[m [j [-> [Hm [Hpj [Hj _]]]]]]].
    + split; constructor.
    + destruct (IH (j + List.length w) Hj) as [Hsorted Hfrom].
      pose proof word_nonempty as Hne.
      cbn [map]. rewrite Hm. split.
      * constructor; [assumption|].
        eapply Forall_impl; [|exact Hfrom]. cbn. intros a Ha. lia.
      * constructor; [assumption|].
        eapply Forall_impl; [|exact Hfrom]. cbn. intros a Ha. lia.
Qed.

End WordScan.

(** The offsets at which [finditer] reports the pattern of a word are
    exactly those of its whole-word occurrences, in increasing order. *)
Lemma finditer_word t p w :
  compile p = word_pattern w ->
  word_edges w = true -> no_self_overlap w = true ->
  (forall i, Spec.whole_word_at w t i <->
             exists m, In m (finditer p t) /\ m_start m = i) /\
  StronglySorted lt (map m_start (finditer p t)).
Proof.
  intros Hp Hw Hno. unfold finditer. rewrite Hp.
  change (start_state t) with (state_at t 0). split.
  - intros i. split.
    + intros Hocc. apply scan_word_complete; try assumption; lia.
    + intros [m [Hin <-]].
      destruct (@scan_sound t (word_pattern w) _ _ m (state_at_position t (Nat.le_0_l _)) Hin)
        as [st [e [Hst [<- [Hrun _]]]]].
      exact (@word_pattern_sound t w st e Hw Hst Hrun).
  - apply scan_word_increasing; try assumption. lia.
Qed.

(** *** A scan never lacks fuel *)

Lemma lit_advances w : forall s st k res,
  lit w s st k = Some res ->
  exists e, k e = Some res /\ pos st <= pos e.
Proof.
  induction w as [|c w IH]; intros s st k res H; simpl in H.
  - exists (with_rest s st). split; [assumption|apply Nat.le_refl].
  - destruct s as [|c' s]; [discriminate|].
    destruct (Ascii.eqb c c'); [|discriminate].
    destruct (IH _ _ _ _ H) as [e [Hk He]].
    exists e. split; [assumption|]. simpl in He. lia.
Qed.

Lemma rep_advances cs : forall s min st k res,
  rep cs min s st k = Some res ->
  exists e, k e = Some res /\ pos st <= pos e.
Proof.
  induction s as [|c s IH]; intros min st k res H; simpl in H.
  - destruct (Nat.eqb min 0); [|discriminate].
    exists (with_rest [] st). split; [assumption|apply Nat.le_refl].
  - assert (Hhere : (if Nat.eqb min 0 then k (with_rest (c :: s) st) else None) = Some res ->
                    exists e, k e = Some res /\ pos st <= pos e).
    { destruct (Nat.eqb min 0); [|discriminate].
      intros Hk. exists (with_rest (c :: s) st). split; [assumption|apply Nat.le_refl]. }
    destruct (in_cset cs c); [|exact (Hhere H)].
    destruct (rep cs (Nat.pred min) s (step c s st) k) eqn:Hin.
    + injection H as <-.
      destruct (IH _ _ _ _ Hin) as [e [Hk He]].
      exists e. split; [assumption|]. simpl in He. lia.
    + exact (Hhere H).
Qed.

(** A run hands its continuation a position at or after its own. *)
Lemma run_advances r : forall st k res,
  run r st k = Some res ->
  exists e, k e = Some res /\ pos st <= pos e.
Proof.
  induction r as [|c|cs| |cs min|n r IH|n|a IHa b IHb|a IHa b IHb];
    intros st k res H; cbn [run] in H.
  - exists st. split; [assumption|apply Nat.le_refl].
  - exact (lit_advances _ _ _ _ H).
  - destruct (rest st) as [|c s]; [discriminate|].
    destruct (in_cset cs c); [|discriminate].
    exists (step c s st). split; [assumption|]. simpl. lia.
  - destruct (at_boundary st); [|discriminate].
    exists st. split; [assumption|apply Nat.le_refl].
  - exact (rep_advances _ _ _ _ _ H).
  - destruct (IH _ _ _ H) as [e [Hk He]].
    exists (set_cap n (firstn (pos e - pos st) (rest st)) e).
    split; [assumption|exact He].
  - destruct (get_cap n (caps st)) as [w|]; [|discriminate].
    exact (lit_advances _ _ _ _ H).
  - destruct (IHa _ _ _ H) as [m [Hk Hm]].
    destruct (IHb _ _ _ Hk) as [e [Hk' He]].
    exists e. split; [assumption|lia].
  - destruct (run a st k) eqn:Ha.
    + injection H as <-. exact (IHa _ _ _ Ha).
    + exact (IHb _ _ _ H).
Qed.

Lemma search_from_advances r : forall s st m,
  search_from r s st = Some m ->
  pos st <= m_start m /\ m_start m <= m_end m /\ pos (m_after m) = m_end m.
Proof.
  induction s as [|c s IH]; intros st m H; simpl in H.
  - destruct (run r (with_rest [] st) Some) as [e|] eqn:Hr; [|discriminate].
    injection H as <-. simpl.
    destruct (run_advances _ _ _ Hr) as [e' [He' Hle]]. injection He' as ->.
    simpl in Hle. lia.
  - destruct (run r (with_rest (c :: s) st) Some) as [e|] eqn:Hr.
    + injection H as <-. simpl.
      destruct (run_advances _ _ _ Hr) as [e' [He' Hle]]. injection He' as ->.
      simpl in Hle. lia.
    + destruct (IH _ _ H) as [H1 H2]. simpl in H1. lia.
Qed.

(** Fuel beyond the characters left does not change a scan: the scan of
    [re.finditer] is never cut short. *)
Lemma scan_fuel t r : forall fuel fuel' st,
  position_of t st ->
  List.length t - pos st < fuel ->
  List.length t - pos st < fuel' ->
  scan fuel r st = scan fuel' r st.
Proof.
  induction fuel as [|fuel IH]; intros fuel' st Hst Hf Hf'; [lia|].
  destruct fuel' as [|fuel']; [lia|].
  cbn [scan].
  destruct (search_from r (rest st) st) as [m|] eqn:Hs; [|reflexivity].
  pose proof (@search_from_sound t r (rest st) st m (position_with_rest Hst) Hs) as Hm.
  pose proof (reported_after Hm) as Hafter.
  destruct (search_from_advances _ _ _ Hs) as [H1 [H2 H3]].
  assert (Hlen : pos (m_after m) <= List.length t).
  { destruct Hafter as [b [Ht [Hl _]]]. rewrite Ht, length_app. lia. }
  f_equal.
  destruct (Nat.eqb (m_end m) (m_start m)) eqn:E.
  - destruct (rest (m_after m)) as [|c s] eqn:Hr; [reflexivity|].
    assert (Hstep : position_of t (step c s (m_after m))).
    { apply position_step. rewrite <- Hr. apply position_with_rest. assumption. }
    assert (Hlen' : S (pos (m_after m)) <= List.length t).
    { destruct Hstep as [b [Ht [Hl _]]]. simpl in Hl. rewrite Ht, length_app. lia. }
    apply IH; [assumption|simpl; lia|simpl; lia].
  - apply Nat.eqb_neq in E. apply IH; [assumption|lia|lia].
Qed.

Lemma finditer_fuel p t n :
  scan (S (List.length t) + n) (compile p) (start_state t) = finditer p t.
Proof.
  unfold finditer. apply scan_fuel with (t := t).
  - apply position_start.
  - simpl. lia.
  - simpl. lia.
Qed.

End ScanFacts.

(** ** The speech-rate analyzer *)

Module SpeechRateFacts.
Import PyStr PyNum PyErr Binary64 Scorer Scorer64 Notions Float64Facts.
Local Open Scope string_scope.
Local Open Scope Z_scope.





(** The rounding of the two quotients shows at the edge of a band: 925
    words in 500 seconds are 111 words a minute, which binary64 computes
    as 110.99999999999999, below the band of the score 10. *)
Lemma speech_rate_rounded_below_111 :
  (Spec.wpm 925 500 == 111)%Q /\
  words_per_minute 925 (Int 500) = Returned (S754_finite false 7810930603720703 (-46)) /\
  ltb (S754_finite false 7810930603720703 (-46)) (exact 111) = true /\
  leb (exact 81) (S754_finite false 7810930603720703 (-46)) = true.
Proof.
  split; [vm_compute; reflexivity|]. repeat split; vm_compute; reflexivity.
Qed.



End SpeechRateFacts.

(** ** The filler-word analyzer *)

Module FillerFacts.
Import PyStr PyNum NumFacts Scorer ScorerFacts ScanFacts Notions.
Local Open Scope string_scope.
Local Open Scope Q_scope.

(** Each filler compiles to the word pattern of its text, begins and ends
    with a word character, and cannot overlap itself as a whole word. *)
Lemma filler_patterns filler :
  In filler FILLER_WORDS ->
  Re.compile (filler_pattern filler) = word_pattern (of_string filler) /\
  word_edges (of_string filler) = true /\
  no_self_overlap (of_string filler) = true.
Proof.
  intros Hin. unfold FILLER_WORDS in Hin.
  repeat (destruct Hin as [<-|Hin]; [repeat split|]).
  contradiction.
Qed.







End FillerFacts.

(** ** The flow analyzer *)

Module FlowFacts.
Import PyStr PyNum NumFacts Scorer ScorerFacts Notions.
Local Open Scope string_scope.
Local Open Scope Q_scope.






Lemma group_positions_eq t :
  group_positions t =
  [ ("sal", average (group_indices t (get groups_map "sal")));
    ("basic", average (group_indices t (get groups_map "basic")));
    ("add", average (group_indices t (get groups_map "add")));
    ("end", average (group_indices t (get groups_map "end"))) ].
Proof. reflexivity. Qed.

(** The two loops count the pairs in order and the pairs that can be
    compared. *)
Lemma count_pairs_spec (sal basic add closing : option Q) :
  count_pairs [("sal", sal); ("basic", basic); ("add", add); ("end", closing)] =
  ( List.length (filter Spec.in_order
       [ (sal, basic); (sal, add); (sal, closing);
         (basic, add); (basic, closing); (add, closing) ]),
    List.length (filter Spec.evaluable
       [ (sal, basic); (sal, add); (sal, closing);
         (basic, add); (basic, closing); (add, closing) ]) ).
Proof.
  unfold count_pairs, compare_pair, ltb. cbn.
  destruct sal, basic, add, closing; cbn;
    repeat match goal with
           | |- context [Qle_bool ?a ?b] => destruct (Qle_bool a b); cbn
           end; reflexivity.
Qed.





End FlowFacts.

(** ** The keyword analyzer *)

Module KeywordFacts.
Import PyStr PyNum NumFacts Scorer ScorerFacts ReFacts Notions.
Local Open Scope string_scope.
Local Open Scope Q_scope.











End KeywordFacts.

(** ** The sample introduction *)

Module SampleFacts.
Import PyStr PyNum NumFacts Scorer ScorerFacts EvaluateFacts Notions.
Local Open Scope string_scope.
Local Open Scope Q_scope.

Lemma sentiment_nonnegative v t :
  0 <= fst (compound_of v t) -> 9 <= fst (sentiment_score v t 15).
Proof.
  unfold sentiment_score. destruct (compound_of v t) as [c m]. cbn [fst].
  intros H.
  assert (E : geb c 0.0 = true) by (apply geb_ge; lra).
  rewrite E. destruct (geb c 0.5), (geb c 0.3); closed_cmp.
Qed.

Lemma sample_scores :
  fst (detect_salutation_level sample_text) == 5 /\
  fst (keyword_presence_score sample_text 30) == 30 /\
  fst (flow_score sample_text 5) == 5 /\
  fst (speech_rate_score sample_text 30 10) == 6 /\
  fst (grammar_score sample_text 10) == 10 /\
  fst (vocab_ttr_score sample_text 10) == 8 /\
  fst (filler_word_score sample_text 15) == 15.
Proof. vm_compute. repeat split. Qed.

Lemma sample_sentiment_heuristic :
  fst (sentiment_score NoVader sample_text 15) == 15.
Proof. vm_compute. reflexivity. Qed.

Lemma sample_keyword_details :
  snd (keyword_presence_score sample_text 30) =
  DDict [ ("found_must", VStrs must);
          ("found_optional", VStrs optional);
          ("raw_score", VNum (keyword_raw_score 6 3)) ].
Proof. vm_compute. reflexivity. Qed.

Lemma sample_nonempty : sample_text <> [].
Proof. discriminate. Qed.

(** The criteria of a non-empty transcript, read off the result. *)
Lemma result_scores v t r d :
  t <> [] ->
  has_score (evaluate_transcript v (PyStr t) r d)
    "Salutation Level" (fst (detect_salutation_level t)) /\
  has_score (evaluate_transcript v (PyStr t) r d)
    "Keyword Presence" (fst (keyword_presence_score t 30)) /\
  has_details (evaluate_transcript v (PyStr t) r d)
    "Keyword Presence" (snd (keyword_presence_score t 30)) /\
  has_score (evaluate_transcript v (PyStr t) r d)
    "Flow (Order)" (fst (flow_score t 5)).
Proof.
  intros Ht. rewrite (evaluate_nonempty v r d Ht).
  unfold has_score, has_details, criteria_of. cbn [snd].
  split; [|split; [|split]].
  - eexists. split; [left; reflexivity|]. split; reflexivity.
  - eexists. split; [right; left; reflexivity|]. split; reflexivity.
  - eexists. split; [right; left; reflexivity|]. split; reflexivity.
  - eexists. split; [right; right; left; reflexivity|]. split; reflexivity.
Qed.

Lemma has_score_eq r n q q' : q == q' -> has_score r n q -> has_score r n q'.
Proof.
  intros Hq [c [Hin [Hn Hs]]]. exists c. repeat split; try assumption.
  rewrite Hs. exact Hq.
Qed.

Lemma result_total v t r d :
  t <> [] ->
  fst (evaluate_transcript v (PyStr t) r d) ==
  fst (detect_salutation_level t) + fst (keyword_presence_score t 30) +
  fst (flow_score t 5) + fst (speech_rate_score t d 10) +
  fst (grammar_score t 10) + fst (vocab_ttr_score t 10) +
  fst (filler_word_score t 15) + fst (sentiment_score v t 15).
Proof.
  intros Ht. rewrite (evaluate_nonempty v r d Ht).
  unfold criteria_of. cbn [fst map score].
  repeat rewrite sum_cons. rewrite sum_nil. lra.
Qed.

(** The total once the first seven scores are those of the sample. *)
Lemma total_of_seven (total s1 s2 s3 s4 s5 s6 s7 s8 : Q) :
  total == s1 + s2 + s3 + s4 + s5 + s6 + s7 + s8 ->
  s1 == 5 /\ s2 == 30 /\ s3 == 5 /\ s4 == 6 /\ s5 == 10 /\ s6 == 8 /\ s7 == 15 ->
  (9 <= s8 -> 85 < total) /\ (s8 == 15 -> total == 94).
Proof.
  intros Ht [H1 [H2 [H3 [H4 [H5 [H6 H7]]]]]]. split; intros H8; lra.
Qed.

(** C8.  The sample introduction of [scorer.py], evaluated with a duration
    of 30 seconds, scores 5 for the salutation, 30 for the keyword presence
    with all six mandatory and all three optional concepts found, and 5 for
    the flow; its total is above 85 with the heuristic sentiment fallback
    (it is 94) and with any lexicon backend that does not rate the sample
    negative. *)
Theorem sample_introduction_scores (v : sentiment_backend) (rubric_df : pyobj) :
  0 <= fst (compound_of v sample_text) ->
  has_score (evaluate_transcript v (PyStr sample_text) rubric_df 30)
    "Salutation Level" 5 /\
  has_score (evaluate_transcript v (PyStr sample_text) rubric_df 30)
    "Keyword Presence" 30 /\
  has_details (evaluate_transcript v (PyStr sample_text) rubric_df 30)
    "Keyword Presence"
    (DDict [ ("found_must", VStrs ["name"; "age"; "school"; "class"; "family"; "hobby"]);
             ("found_optional", VStrs ["goal"; "fun_fact"; "interest"]);
             ("raw_score", VNum (keyword_raw_score 6 3)) ]) /\
  has_score (evaluate_transcript v (PyStr sample_text) rubric_df 30)
    "Flow (Order)" 5 /\
  85 < fst (evaluate_transcript v (PyStr sample_text) rubric_df 30) /\
  fst (evaluate_transcript NoVader (PyStr sample_text) rubric_df 30) == 94.
Proof.
  intros Hv.
  destruct (result_scores v rubric_df 30 sample_nonempty) as [R1 [R2 [R3 R4]]].
  pose proof sample_scores as Hs.
  split; [|split; [|split; [|split; [|split]]]].
  - exact (has_score_eq (proj1 Hs) R1).
  - exact (has_score_eq (proj1 (proj2 Hs)) R2).
  - exact (eq_ind _ (has_details _ "Keyword Presence") R3 _ sample_keyword_details).
  - exact (has_score_eq (proj1 (proj2 (proj2 Hs))) R4).
  - exact (proj1 (total_of_seven (result_total v rubric_df 30 sample_nonempty) Hs)
             (sentiment_nonnegative v sample_text Hv)).
  - exact (proj2 (total_of_seven (result_total NoVader rubric_df 30 sample_nonempty) Hs)
             sample_sentiment_heuristic).
Qed.

(** The sample under the heuristic fallback. *)
Lemma sample_introduction_scores_witness :
  0 <= fst (compound_of NoVader sample_text) /\
  85 < fst (evaluate_transcript NoVader (PyStr sample_text) PyNone 30).
Proof.
  assert (Hv : 0 <= fst (compound_of NoVader sample_text)) by (vm_compute; discriminate).
  split; [exact Hv|].
  destruct (sample_introduction_scores NoVader PyNone Hv) as [_ [_ [_ [_ [H _]]]]].
  exact H.
Defined.

End SampleFacts.

(** ** Word tokens *)

Module WordFacts.
Import PyStr Re Scorer Notions MoreNotions KeywordFacts.
Local Open Scope nat_scope.

Lemma rep_word_rest s : forall st,
  rep CWord 0 s st Some = Some (skip_word s st).
Proof.
  induction s as [|c s IH]; intros st; cbn [rep skip_word in_cset Nat.eqb Nat.pred].
  - reflexivity.
  - destruct (isword c); [|reflexivity].
    rewrite IH. reflexivity.
Qed.

Lemma skip_word_pos s : forall st, pos st <= pos (skip_word s st).
Proof.
  induction s as [|c s IH]; intros st; cbn [skip_word].
  - apply Nat.le_refl.
  - destruct (isword c); [|apply Nat.le_refl].
    specialize (IH (step c s st)). cbn [pos step] in IH. lia.
Qed.

Lemma skip_word_length s : forall st,
  List.length (rest (skip_word s st)) <= List.length s.
Proof.
  induction s as [|c s IH]; intros st; cbn [skip_word].
  - apply Nat.le_refl.
  - destruct (isword c); [|apply Nat.le_refl].
    specialize (IH (step c s st)). cbn [List.length]. lia.
Qed.

Lemma skip_word_runs s : forall st,
  word_runs true s = word_runs false (rest (skip_word s st)).
Proof.
  induction s as [|c s IH]; intros st; cbn [skip_word word_runs].
  - reflexivity.
  - destruct (isword c) eqn:E.
    + apply IH.
    + cbn [rest with_rest word_runs]. rewrite E. reflexivity.
Qed.

Lemma word_re_compiled : compile "\w+" = word_re.
Proof. reflexivity. Qed.

Lemma run_word_re c s st :
  run word_re (with_rest (c :: s) st) Some =
  if isword c then Some (skip_word s (step c s st)) else None.
Proof.
  cbn [word_re run rep rest with_rest in_cset Nat.eqb Nat.pred].
  destruct (isword c); [|reflexivity].
  change (fun m : mstate => Some m) with (@Some mstate).
  change (step c s (with_rest (c :: s) st)) with (step c s st).
  rewrite rep_word_rest. reflexivity.
Qed.

(** The next word token: none when no word character is left, and
    otherwise one after which fewer characters and one run less remain. *)
Lemma search_word s : forall st,
  match search_from word_re s st with
  | None => word_runs false s = 0
  | Some m =>
    word_runs false s = S (word_runs false (rest (m_after m))) /\
    List.length (rest (m_after m)) < List.length s /\
    m_end m <> m_start m
  end.
Proof.
  induction s as [|c s IH]; intros st.
  - reflexivity.
  - cbn [search_from]. rewrite run_word_re. cbn [word_runs].
    destruct (isword c) eqn:E.
    + cbn [m_after m_end m_start rest].
      pose proof (skip_word_pos s (step c s st)) as Hp.
      pose proof (skip_word_length s (step c s st)) as Hl.
      cbn [pos step] in Hp. cbn [List.length].
      repeat split; [|lia|lia].
      rewrite (skip_word_runs s (step c s st)). reflexivity.
    + specialize (IH (step c s st)).
      destruct (search_from word_re s (step c s st)) as [m|]; [|assumption].
      destruct IH as [H1 [H2 H3]]. cbn [List.length]. repeat split; [assumption|lia|assumption].
Qed.

Lemma scan_word_runs : forall fuel st,
  List.length (rest st) < fuel ->
  List.length (scan fuel word_re st) = word_runs false (rest st).
Proof.
  induction fuel as [|fuel IH]; intros st Hf; [lia|].
  cbn [scan].
  pose proof (search_word (rest st) st) as Hs.
  destruct (search_from word_re (rest st) st) as [m|]; [|symmetry; assumption].
  destruct Hs as [H1 [H2 H3]].
  replace (Nat.eqb (m_end m) (m_start m)) with false
    by (symmetry; apply Nat.eqb_neq; assumption).
  cbn [List.length]. rewrite IH by lia. symmetry. assumption.
Qed.

(** The word tokens of a text are its maximal runs of word characters. *)
Lemma findall_words_runs t :
  List.length (findall "\w+" t) = word_runs false t.
Proof.
  unfold findall, finditer. rewrite length_map, word_re_compiled.
  apply (scan_word_runs (fuel := S (List.length t)) (start_state t)).
  cbn [rest start_state]. lia.
Qed.

Lemma word_count_runs t : word_count t = word_runs false t.
Proof. apply findall_words_runs. Qed.







End WordFacts.

(** ** More on the analyzers *)

Module AnalyzerFacts.
Import PyStr PyNum NumFacts Re Scorer ScorerFacts Notions MoreNotions ReFacts KeywordFacts FlowFacts.
Local Open Scope string_scope.
Local Open Scope Q_scope.

(** *** Keyword presence *)





(** *** Salutation *)




(** *** Speech rate *)

Lemma bool_eq_iff (a b : bool) : (a = true <-> b = true) -> a = b.
Proof.
  destruct a, b; intros [H1 H2]; try reflexivity.
  - symmetry. apply H1. reflexivity.
  - apply H2. reflexivity.
Qed.

Lemma default_rate_at_least (n : nat) (k : Z) (bound : nat) :
  (forall w : nat, k * 520 <= Z.of_nat w * 600 <-> (bound <= w)%nat)%Z ->
  leb (k # 1) (of_nat n / (52 / 60.0)) = Nat.leb bound n.
Proof.
  intros H. apply bool_eq_iff. rewrite leb_le, Nat.leb_le, <- H.
  unfold of_nat, Qle. simpl. lia.
Qed.

Lemma default_rate_at_most (n : nat) (k : Z) (bound : nat) :
  (forall w : nat, Z.of_nat w * 600 <= k * 520 <-> (w <= bound)%nat)%Z ->
  leb (of_nat n / (52 / 60.0)) (k # 1) = Nat.leb n bound.
Proof.
  intros H. apply bool_eq_iff. rewrite leb_le, Nat.leb_le, <- H.
  unfold of_nat, Qle. simpl. lia.
Qed.

Lemma default_rate_below (n : nat) (k : Z) (bound : nat) :
  (forall w : nat, Z.of_nat w * 600 < k * 520 <-> (w <= bound)%nat)%Z ->
  ltb (of_nat n / (52 / 60.0)) (k # 1) = Nat.leb n bound.
Proof.
  intros H. apply bool_eq_iff. rewrite ltb_lt, Nat.leb_le, <- H.
  unfold of_nat, Qlt. simpl. lia.
Qed.

(** The bands of the speech rate at 52 seconds, by the number of words. *)
Lemma speech_rate_default_bands t :
  fst (speech_rate_score t 52 10) =
  if Nat.leb 97 (word_count t) && Nat.leb (word_count t) 121 then 10
  else if (Nat.leb 71 (word_count t) && Nat.leb (word_count t) 96)
          || (Nat.leb 123 (word_count t) && Nat.leb (word_count t) 138)
  then 6 else 2.
Proof.
  unfold speech_rate_score. cbn [fst].
  change (if leb 52 0 then 52 else 52) with 52.
  rewrite (@default_rate_at_least (word_count t) 111 97) by (intros w; lia).
  rewrite (@default_rate_at_most (word_count t) 140 121) by (intros w; lia).
  rewrite (@default_rate_at_least (word_count t) 81 71) by (intros w; lia).
  rewrite (@default_rate_below (word_count t) 111 96) by (intros w; lia).
  rewrite (@default_rate_at_least (word_count t) 141 123) by (intros w; lia).
  rewrite (@default_rate_at_most (word_count t) 160 138) by (intros w; lia).
  reflexivity.
Qed.

(** X4.  A duration that is zero or negative is scored exactly as 52
    seconds.  At 52 seconds the score follows from the word count alone:
    10 for 97 to 121 words, 6 for 71 to 96 or 123 to 138 words, and 2
    otherwise -- also for 122 words, whose rate lies between 140 and 141. *)
Theorem speech_rate_default_duration (t : text) (d : Q) :
  (d <= 0 -> speech_rate_score t d 10 = speech_rate_score t 52 10) /\
  fst (speech_rate_score t 52 10) =
    (if Nat.leb 97 (word_count t) && Nat.leb (word_count t) 121 then 10
     else if (Nat.leb 71 (word_count t) && Nat.leb (word_count t) 96)
             || (Nat.leb 123 (word_count t) && Nat.leb (word_count t) 138)
     then 6 else 2).
Proof.
  split; [|apply speech_rate_default_bands].
  intros Hd. apply leb_le in Hd. unfold speech_rate_score. rewrite Hd.
  reflexivity.
Qed.

(** A text of four words with the duration missing. *)
Lemma speech_rate_default_duration_witness :
  0 <= 0 /\
  speech_rate_score (of_string "one two three four") 0 10 =
  speech_rate_score (of_string "one two three four") 52 10.
Proof.
  assert (H : 0 <= 0) by (unfold Qle; simpl; lia).
  split; [exact H|].
  destruct (speech_rate_default_duration (of_string "one two three four") 0) as [Hd _].
  exact (Hd H).
Defined.

(** *** Sentiment *)

(** X5.  With the heuristic fallback the sentiment score is 15 when more
    positive than negative words are hit, 3 when more negative ones are,
    and 9 otherwise; the bands 12 and 6 are out of its reach. *)
Theorem heuristic_sentiment_values (t : text) :
  fst (sentiment_score NoVader t 15) =
  (if Nat.ltb (hits (Re.findall "\w+" (lower t)) neg_words)
              (hits (Re.findall "\w+" (lower t)) pos_words) then 15
   else if Nat.ltb (hits (Re.findall "\w+" (lower t)) pos_words)
                   (hits (Re.findall "\w+" (lower t)) neg_words) then 3
   else 9).
Proof.
  unfold sentiment_score, compound_of, heuristic_compound.
  destruct (Nat.ltb _ _); [reflexivity|].
  destruct (Nat.ltb _ _); reflexivity.
Qed.

(** X6.  The sentiment score never falls when the compound polarity rises,
    whatever backend and text the two polarities come from. *)
Theorem sentiment_score_monotone (v1 v2 : sentiment_backend) (t1 t2 : text) :
  fst (compound_of v1 t1) <= fst (compound_of v2 t2) ->
  fst (sentiment_score v1 t1 15) <= fst (sentiment_score v2 t2 15).
Proof.
  unfold sentiment_score.
  destruct (compound_of v1 t1) as [c1 m1], (compound_of v2 t2) as [c2 m2].
  cbn [fst]. intros H.
  assert (Hth : forall th, geb c2 th = false -> geb c1 th = false).
  { intros th B. apply leb_gt in B. apply leb_gt. lra. }
  destruct (geb c2 0.5) eqn:B1.
  { destruct (geb c1 0.5), (geb c1 0.3), (geb c1 0.0), (geb c1 (-0.2)); closed_cmp. }
  rewrite (Hth _ B1).
  destruct (geb c2 0.3) eqn:B2.
  { destruct (geb c1 0.3), (geb c1 0.0), (geb c1 (-0.2)); closed_cmp. }
  rewrite (Hth _ B2).
  destruct (geb c2 0.0) eqn:B3.
  { destruct (geb c1 0.0), (geb c1 (-0.2)); closed_cmp. }
  rewrite (Hth _ B3).
  destruct (geb c2 (-0.2)) eqn:B4.
  { destruct (geb c1 (-0.2)); closed_cmp. }
  rewrite (Hth _ B4). closed_cmp.
Qed.

(** Two lexicon backends that rate a text 0.1 and 0.4. *)
Lemma sentiment_score_monotone_witness :
  fst (compound_of (Vader (fun _ => 0.1)) (of_string "fine")) <=
  fst (compound_of (Vader (fun _ => 0.4)) (of_string "fine")) /\
  fst (sentiment_score (Vader (fun _ => 0.1)) (of_string "fine") 15) <=
  fst (sentiment_score (Vader (fun _ => 0.4)) (of_string "fine") 15).
Proof.
  assert (H : fst (compound_of (Vader (fun _ => 0.1)) (of_string "fine")) <=
              fst (compound_of (Vader (fun _ => 0.4)) (of_string "fine")))
    by (unfold Qle; simpl; lia).
  split; [exact H|].
  exact (@sentiment_score_monotone (Vader (fun _ => 0.1)) (Vader (fun _ => 0.4))
           (of_string "fine") (of_string "fine") H).
Defined.

End AnalyzerFacts.

(** ** More on the flow *)

Module FlowMore.
Import PyStr PyNum NumFacts Re Scorer ScorerFacts Notions MoreNotions FlowFacts.
Local Open Scope string_scope.
Local Open Scope Q_scope.

(** *** Flow *)

(** X7.  The flow analyzer compares each pair of groups that both have a
    match: with [k] of the four groups matched it evaluates k(k-1)/2 pairs,
    that is 0, 1, 3 or 6, and never counts more pairs as correct than it
    evaluates.  With fewer than two groups matched it returns 3.0 when
    the basic-information group is the one matched and 0.0 otherwise. *)
Theorem flow_pairs_evaluated (t : text) :
  snd (count_pairs (group_positions (lower t))) =
    (defined_groups (anchors t) * (defined_groups (anchors t) - 1) / 2)%nat /\
  (fst (count_pairs (group_positions (lower t))) <=
   snd (count_pairs (group_positions (lower t))))%nat /\
  ((defined_groups (anchors t) <= 1)%nat ->
   fst (flow_score t 5) =
   match position (group_positions (lower t)) "basic" with
   | Some _ => 3.0
   | None => 0.0
   end).
Proof.
  split; [|split].
  - unfold anchors. rewrite group_positions_eq. cbn [map snd].
    rewrite count_pairs_spec. cbn [snd].
    destruct (average (group_indices (lower t) (get groups_map "sal"))),
             (average (group_indices (lower t) (get groups_map "basic"))),
             (average (group_indices (lower t) (get groups_map "add"))),
             (average (group_indices (lower t) (get groups_map "end")));
      reflexivity.
  - apply count_pairs_inv.
  - unfold anchors, flow_score, _lower_and_clean.
    rewrite group_positions_eq. cbn [map snd].
    rewrite count_pairs_spec.
    destruct (average (group_indices (lower t) (get groups_map "sal"))),
             (average (group_indices (lower t) (get groups_map "basic"))),
             (average (group_indices (lower t) (get groups_map "add"))),
             (average (group_indices (lower t) (get groups_map "end")));
      cbn; intros H; try lia; reflexivity.
Qed.

(** A text with a salutation only. *)
Lemma flow_pairs_evaluated_witness :
  (defined_groups (anchors (of_string "hello")) <= 1)%nat /\
  fst (flow_score (of_string "hello") 5) =
  match position (group_positions (lower (of_string "hello"))) "basic" with
  | Some _ => 3.0
  | None => 0.0
  end.
Proof.
  assert (H : (defined_groups (anchors (of_string "hello")) <= 1)%nat)
    by (vm_compute; lia).
  split; [exact H|].
  destruct (flow_pairs_evaluated (of_string "hello")) as [_ [_ Hf]].
  exact (Hf H).
Defined.

Ltac sorted_facts :=
  repeat match goal with
         | H : StronglySorted _ (_ :: _) |- _ => inversion H; clear H; subst
         | H : Forall _ (_ :: _) |- _ => inversion H; clear H; subst
         end.

Lemma increasing_pairs (sal basic add closing : option Q) :
  (2 <= List.length (defined [sal; basic; add; closing]))%nat ->
  StronglySorted Qlt (defined [sal; basic; add; closing]) ->
  exists n,
    count_pairs [("sal", sal); ("basic", basic); ("add", add); ("end", closing)] =
    (S n, S n).
Proof.
  rewrite count_pairs_spec.
  destruct sal, basic, add, closing;
    cbn [defined flat_map app List.length filter Spec.in_order Spec.evaluable];
    intros Hk Hs; try lia; sorted_facts;
    repeat match goal with
           | H : ?a < ?b |- _ =>
             apply ltb_lt in H; unfold ltb, leb in H; rewrite H; clear H
           end;
    cbn [List.length]; eexists; reflexivity.
Qed.

Lemma decreasing_pairs (sal basic add closing : option Q) :
  (2 <= List.length (defined [sal; basic; add; closing]))%nat ->
  StronglySorted (fun a b => b <= a) (defined [sal; basic; add; closing]) ->
  exists n,
    count_pairs [("sal", sal); ("basic", basic); ("add", add); ("end", closing)] =
    (0%nat, S n).
Proof.
  rewrite count_pairs_spec.
  destruct sal, basic, add, closing;
    cbn [defined flat_map app List.length filter Spec.in_order Spec.evaluable];
    intros Hk Hs; try lia; sorted_facts;
    repeat match goal with
           | H : ?b <= ?a |- _ =>
             apply ltb_ge in H; unfold ltb, leb in H; rewrite H; clear H
           end;
    cbn [List.length]; eexists; reflexivity.
Qed.

(** X8.  When at least two groups are matched and the positions of the
    matched groups increase strictly along salutation, basic information,
    additional information, closing, the flow score is the full 5; when
    none of them lies before a later one, it is 0. *)
Theorem flow_score_of_ordered_groups (t : text) :
  (2 <= List.length (defined (anchors t)))%nat ->
  (StronglySorted Qlt (defined (anchors t)) -> fst (flow_score t 5) == 5) /\
  (StronglySorted (fun a b => b <= a) (defined (anchors t)) ->
   fst (flow_score t 5) == 0).
Proof.
  unfold anchors, flow_score, _lower_and_clean.
  rewrite group_positions_eq. cbn [map snd].
  intros Hk. split; intros Hs.
  - destruct (increasing_pairs _ _ _ _ Hk Hs) as [n ->].
    cbn [Nat.eqb fst].
    assert (Hn : ~ of_nat (S n) == 0) by (unfold of_nat, Qeq; simpl; lia).
    field. exact Hn.
  - destruct (decreasing_pairs _ _ _ _ Hk Hs) as [n ->].
    cbn [Nat.eqb fst].
    assert (Hn : ~ of_nat (S n) == 0) by (unfold of_nat, Qeq; simpl; lia).
    change (of_nat 0) with 0. field. exact Hn.
Qed.

(** A greeting, a name and thanks, in this order. *)
Lemma flow_score_of_ordered_groups_witness :
  (2 <= List.length (defined (anchors (of_string "hello, my name is Ann. thank you"))))%nat /\
  StronglySorted Qlt (defined (anchors (of_string "hello, my name is Ann. thank you"))) /\
  fst (flow_score (of_string "hello, my name is Ann. thank you") 5) == 5.
Proof.
  assert (Hk : (2 <= List.length (defined (anchors (of_string "hello, my name is Ann. thank you"))))%nat)
    by (vm_compute; lia).
  assert (Hs : StronglySorted Qlt (defined (anchors (of_string "hello, my name is Ann. thank you")))).
  { vm_compute. repeat constructor. }
  split; [exact Hk|]. split; [exact Hs|].
  destruct (flow_score_of_ordered_groups (of_string "hello, my name is Ann. thank you") Hk)
    as [Hup _].
  exact (Hup Hs).
Defined.

End FlowMore.

(** ** Grammar, vocabulary and fillers *)

Module GrammarVocab.
Import PyStr PyNum NumFacts Re Scorer ScorerFacts Notions MoreNotions ScanFacts FillerFacts.
Local Open Scope string_scope.
Local Open Scope Q_scope.

(** *** Grammar *)







(** *** Vocabulary *)

Lemma text_eqb_eq a : forall b, text_eqb a b = true <-> a = b.
Proof.
  induction a as [|x a IH]; intros [|y b]; cbn [text_eqb]; split; intros H;
    try reflexivity; try discriminate.
  - apply andb_true_iff in H. destruct H as [Hx Ha].
    apply Ascii.eqb_eq in Hx. apply IH in Ha. subst. reflexivity.
  - injection H as -> ->. rewrite Ascii.eqb_refl. cbn [andb]. apply IH. reflexivity.
Qed.

Lemma mem_In w l : mem w l = true <-> In w l.
Proof.
  unfold mem. rewrite existsb_exists. split.
  - intros [x [Hin Hx]]. apply text_eqb_eq in Hx. subst. assumption.
  - intros Hin. exists w. split; [assumption|]. apply text_eqb_eq. reflexivity.
Qed.

Lemma dedup_length l : (List.length (dedup l) <= List.length l)%nat.
Proof.
  induction l as [|w l IH]; [apply Nat.le_refl|].
  cbn [dedup]. destruct (mem w l); cbn [List.length]; lia.
Qed.

Lemma dedup_In w l : In w (dedup l) <-> In w l.
Proof.
  induction l as [|x l IH]; [reflexivity|].
  cbn [dedup]. destruct (mem x l) eqn:E; cbn [In]; rewrite IH.
  - apply mem_In in E. split; [auto|]. intros [->|H]; assumption.
  - reflexivity.
Qed.

Lemma dedup_NoDup l : NoDup (dedup l).
Proof.
  induction l as [|x l IH]; [constructor|].
  cbn [dedup]. destruct (mem x l) eqn:E; [assumption|].
  constructor; [|assumption].
  rewrite dedup_In. intros H. apply mem_In in H. congruence.
Qed.

Lemma dedup_of_NoDup l : NoDup l -> dedup l = l.
Proof.
  induction 1 as [|x l Hx Hl IH]; [reflexivity|].
  cbn [dedup]. destruct (mem x l) eqn:E.
  - apply mem_In in E. contradiction.
  - rewrite IH. reflexivity.
Qed.

Lemma dedup_nonempty l : l <> [] -> dedup l <> [].
Proof.
  destruct l as [|x l]; [congruence|]. intros _ H.
  assert (Hin : In x (dedup (x :: l))) by (apply dedup_In; left; reflexivity).
  rewrite H in Hin. contradiction.
Qed.

(** X10.  The vocabulary score is 0 for a text without word token and
    otherwise one of 2, 4, 6, 8 and 10: the distinct tokens are at least one
    and at most all of them.  A text in which no token occurs twice scores
    the full 10. *)
Theorem vocab_score_values (t : text) :
  (Re.findall "\w+" (lower t) = [] -> vocab_ttr_score t 10 = (0, DDict [])) /\
  (Re.findall "\w+" (lower t) <> [] ->
   (1 <= List.length (dedup (Re.findall "\w+" (lower t))) <=
         List.length (Re.findall "\w+" (lower t)))%nat /\
   (fst (vocab_ttr_score t 10) == 2 \/ fst (vocab_ttr_score t 10) == 4 \/
    fst (vocab_ttr_score t 10) == 6 \/ fst (vocab_ttr_score t 10) == 8 \/
    fst (vocab_ttr_score t 10) == 10) /\
   (NoDup (Re.findall "\w+" (lower t)) -> fst (vocab_ttr_score t 10) = 10)).
Proof.
  unfold vocab_ttr_score. set (words := Re.findall "\w+" (lower t)).
  split.
  - intros ->. reflexivity.
  - intros Hne.
    assert (Hlen : (0 < List.length words)%nat)
      by (destruct words; [congruence|cbn [List.length]; lia]).
    replace (Nat.eqb (List.length words) 0) with false
      by (symmetry; apply Nat.eqb_neq; lia).
    split; [|split].
    + pose proof (dedup_length words). pose proof (dedup_nonempty Hne) as Hd.
      destruct (dedup words); [congruence|]. cbn [List.length] in *. lia.
    + destruct (geb _ 0.9); [right; right; right; right; reflexivity|].
      destruct (geb _ 0.7); [right; right; right; left; reflexivity|].
      destruct (geb _ 0.5); [right; right; left; reflexivity|].
      destruct (geb _ 0.3); [right; left; reflexivity|].
      left; reflexivity.
    + intros Hnd. rewrite (dedup_of_NoDup Hnd).
      assert (E : geb (of_nat (List.length words) / of_nat (List.length words)) 0.9 = true).
      { apply geb_ge.
        assert (Hpos : 0 < of_nat (List.length words)) by (apply of_nat_pos; assumption).
        apply Qle_shift_div_l; [assumption|].
        assert (0.9 * of_nat (List.length words) == (9 # 10) * of_nat (List.length words))
          by reflexivity.
        lra. }
      rewrite E. reflexivity.
Qed.

(** Four different words. *)
Lemma vocab_score_values_witness :
  Re.findall "\w+" (lower (of_string "My goal is coding")) <> [] /\
  NoDup (Re.findall "\w+" (lower (of_string "My goal is coding"))) /\
  fst (vocab_ttr_score (of_string "My goal is coding") 10) = 10.
Proof.
  assert (Hne : Re.findall "\w+" (lower (of_string "My goal is coding")) <> [])
    by (vm_compute; discriminate).
  assert (Hnd : NoDup (Re.findall "\w+" (lower (of_string "My goal is coding")))).
  { vm_compute. repeat constructor; cbn [In]; intuition discriminate. }
  split; [exact Hne|]. split; [exact Hnd|].
  destruct (vocab_score_values (of_string "My goal is coding")) as [_ H].
  destruct (H Hne) as [_ [_ Hfull]].
  exact (Hfull Hnd).
Defined.

(** *** Filler words *)

Lemma count_fillers_none t fillers :
  (forall filler, In filler fillers -> filler_matches t filler = 0%nat) ->
  count_fillers t fillers = (0%nat, []).
Proof.
  unfold count_fillers. generalize (0%nat, @nil string).
  induction fillers as [|f fillers IH]; intros acc H; [reflexivity|].
  cbn [fold_left]. rewrite (H f (or_introl eq_refl)). cbn [Nat.ltb Nat.leb].
  apply IH. intros filler Hin. apply H. right. assumption.
Qed.

(** X11.  A text that has a word token and in which no filler occurs as a
    whole word gets the full filler score 15, with the count 0, the rate 0
    and no filler listed. *)
Theorem filler_free_text_scores_full (t : text) :
  (0 < word_count (lower t))%nat ->
  (forall filler i, In filler FILLER_WORDS ->
                    ~ Spec.whole_word_at (of_string filler) (lower t) i) ->
  filler_word_score t 15 =
  (15, DDict [("rate_percent", VNum 0); ("count", VNum 0); ("found", VStrs [])]).
Proof.
  intros Hw Hnone.
  assert (Hcount : count_fillers t FILLER_WORDS = (0%nat, [])).
  { apply count_fillers_none. intros filler Hin.
    destruct (filler_patterns Hin) as [Hc [He Hno]].
    destruct (finditer_word (lower t) (filler_pattern filler) Hc He Hno) as [Hiff _].
    unfold filler_matches, Re.findall. rewrite length_map.
    destruct (Re.finditer (filler_pattern filler) (lower t)) as [|m l] eqn:E; [reflexivity|].
    exfalso. apply (Hnone filler (Re.m_start m) Hin).
    apply Hiff. exists m. split; [left; reflexivity|reflexivity]. }
  unfold filler_word_score. rewrite Hcount.
  unfold word_count in Hw.
  destruct (List.length (Re.findall "\w+" (lower t))) as [|n]; [lia|].
  reflexivity.
Qed.

(** A sentence without filler. *)
Lemma filler_free_text_scores_full_witness :
  (0 < word_count (lower (of_string "My name is Ann")))%nat /\
  (forall filler i, In filler FILLER_WORDS ->
     ~ Spec.whole_word_at (of_string filler) (lower (of_string "My name is Ann")) i) /\
  filler_word_score (of_string "My name is Ann") 15 =
  (15, DDict [("rate_percent", VNum 0); ("count", VNum 0); ("found", VStrs [])]).
Proof.
  assert (Hw : (0 < word_count (lower (of_string "My name is Ann")))%nat)
    by (vm_compute; lia).
  assert (Hn : forall filler i, In filler FILLER_WORDS ->
             ~ Spec.whole_word_at (of_string filler) (lower (of_string "My name is Ann")) i).
  { intros filler i Hin Hocc.
    destruct (filler_patterns Hin) as [Hc [He Hno]].
    destruct (finditer_word (lower (of_string "My name is Ann")) (filler_pattern filler)
                Hc He Hno) as [Hiff _].
    apply Hiff in Hocc. destruct Hocc as [m [Hm _]].
    unfold FILLER_WORDS in Hin.
    repeat (destruct Hin as [<-|Hin]; [vm_compute in Hm; exact Hm|]).
    exact Hin. }
  split; [exact Hw|]. split; [exact Hn|].
  exact (@filler_free_text_scores_full (of_string "My name is Ann") Hw Hn).
Defined.

End GrammarVocab.

(** ** Plain phrases and whole words *)

Module LiteralFacts.
Import PyStr PyNum NumFacts Re Scorer ScorerFacts Notions MoreNotions ScanFacts.
Local Open Scope string_scope.
Local Open Scope nat_scope.

Lemma lower_char_idem c : lower_char (lower_char c) = lower_char c.
Proof. destruct c as [[] [] [] [] [] [] [] []]; reflexivity. Qed.

Lemma lower_idem t : lower (lower t) = lower t.
Proof.
  unfold lower. rewrite map_map. apply map_ext. intros c. apply lower_char_idem.
Qed.

(** A sequence of literals matches where the subject goes on with it. *)
Lemma run_lits_prefix w : forall m,
  run (lits w REmpty) m Some <> None <-> exists s', rest m = (w ++ s')%list.
Proof.
  intros m. split.
  - revert m. induction w as [|c w IH]; intros m H.
    + exists (rest m). reflexivity.
    + cbn [lits fold_right run lit] in H.
      destruct (rest m) as [|c' s] eqn:Hr; [congruence|].
      destruct (Ascii.eqb c c') eqn:E; [|congruence].
      apply Ascii.eqb_eq in E. subst c'.
      change (fold_right (fun c0 r0 => RCat (RLit c0) r0) REmpty w)
        with (lits w REmpty) in H.
      destruct (IH _ H) as [s' Hs']. cbn [rest with_rest] in Hs'.
      exists s'. cbn [app]. rewrite Hs'. reflexivity.
  - intros [s' Hs']. rewrite (@lits_run w REmpty m Some s' Hs').
    cbn [run]. discriminate.
Qed.

Lemma infix_nil w : infix w [] <-> exists s', [] = (w ++ s')%list.
Proof.
  split.
  - intros [b [a H]]. destruct b; [|discriminate]. exists a. exact H.
  - intros [s' H]. exists [], s'. exact H.
Qed.

Lemma infix_cons w c s :
  infix w (c :: s) <-> (exists s', c :: s = (w ++ s')%list) \/ infix w s.
Proof.
  split.
  - intros [b [a H]]. destruct b as [|x b].
    + left. exists a. exact H.
    + right. injection H as _ H. exists b, a. exact H.
  - intros [[s' H]|[b [a H]]].
    + exists [], s'. exact H.
    + exists (c :: b), a. rewrite H. reflexivity.
Qed.

Lemma search_lits w : forall s st,
  search_from (lits w REmpty) s st <> None <-> infix w s.
Proof.
  induction s as [|c s IH]; intros st; cbn [search_from].
  - rewrite infix_nil.
    rewrite <- (run_lits_prefix w (with_rest [] st)).
    destruct (run (lits w REmpty) (with_rest [] st) Some); split; congruence.
  - rewrite infix_cons.
    rewrite <- (run_lits_prefix w (with_rest (c :: s) st)).
    destruct (run (lits w REmpty) (with_rest (c :: s) st) Some) eqn:E.
    + split; [left|]; congruence.
    + rewrite IH. split; [right; assumption|]. intros [H|H]; [congruence|assumption].
Qed.

(** A search for a plain phrase finds it exactly in the texts that contain
    it. *)
Lemma search_phrase p t :
  compile p = lits (of_string p) REmpty ->
  (search p t = true <-> infix (of_string p) t).
Proof.
  intros Hp. unfold search. rewrite Hp.
  rewrite <- (search_lits (of_string p) t (start_state t)).
  destruct (search_from (lits (of_string p) REmpty) t (start_state t));
    split; congruence.
Qed.

Lemma search_phrases phrases t :
  Forall (fun p => compile p = lits (of_string p) REmpty) phrases ->
  (existsb (fun p => search p t) phrases = true <-> contains_any phrases t).
Proof.
  intros Hall. rewrite existsb_exists. unfold contains_any.
  rewrite Forall_forall in Hall.
  split; intros [p [Hin H]]; exists p; (split; [assumption|]);
    apply (@search_phrase p t (Hall p Hin)); assumption.
Qed.




Lemma phrases_of_concepts k :
  In k phrase_concepts ->
  Forall (fun p => compile p = lits (of_string p) REmpty) (get KEYWORD_MAP k).
Proof.
  intros Hin. unfold phrase_concepts in Hin.
  repeat (destruct Hin as [<-|Hin]; [repeat constructor|]).
  contradiction.
Qed.




Lemma found_keys_In t k keys :
  In k (found_keys t keys) <-> In k keys /\ _find_any_pattern t (get KEYWORD_MAP k) = true.
Proof. unfold found_keys. apply filter_In. Qed.

(** X13.  For the concepts school, hobby, interest, goal and fun fact every
    pattern is a plain phrase, and the concept is reported as found exactly
    when the lowercased text contains one of its phrases as a substring,
    whether or not it stands there as a word of its own. *)
Theorem phrase_concepts_by_content (t : text) (k : string) :
  In k phrase_concepts ->
  (In k (found_keys (_lower_and_clean t) must ++
         found_keys (_lower_and_clean t) optional)%list <->
   contains_any (get KEYWORD_MAP k) (lower t)).
Proof.
  intros Hk. pose proof (phrases_of_concepts Hk) as Hall.
  rewrite in_app_iff, !found_keys_In.
  unfold _find_any_pattern, _lower_and_clean. rewrite lower_idem.
  rewrite (search_phrases (lower t) Hall).
  assert (Hin : In k must \/ In k optional).
  { unfold phrase_concepts in Hk. unfold must, optional. cbn [In] in *. tauto. }
  tauto.
Qed.

(** "display" contains "play". *)
Lemma phrase_concepts_by_content_witness :
  In "hobby" phrase_concepts /\
  (In "hobby" (found_keys (_lower_and_clean (of_string "We display art")) must ++
               found_keys (_lower_and_clean (of_string "We display art")) optional)%list <->
   contains_any (get KEYWORD_MAP "hobby") (lower (of_string "We display art"))).
Proof.
  assert (Hk : In "hobby" phrase_concepts) by (right; left; reflexivity).
  split; [exact Hk|].
  exact (@phrase_concepts_by_content (of_string "We display art") "hobby" Hk).
Defined.

End LiteralFacts.

(** ** What the parts of an evaluation depend on *)

Module DependenceFacts.
Import PyStr PyNum NumFacts Re Scorer ScorerFacts Notions MoreNotions EvaluateFacts
  SampleFacts WordFacts LiteralFacts.
Local Open Scope string_scope.
Local Open Scope Q_scope.









End DependenceFacts.

(** ** [str.strip] *)

Module StripFacts.
Import PyStr MoreNotions.











End StripFacts.

(** ** The rubric loader and the runner *)

Module RunnerFacts.
Import PyStr PyNum NumFacts PyErr Scorer ScorerFacts Notions MoreNotions
  EvaluateFacts StripFacts RubricLoader Execution.
Local Open Scope string_scope.
Local Open Scope Q_scope.









End RunnerFacts.

(** ** The simple scorer of the front end *)

Module FrontendFacts.
Import PyStr PyNum Re Scorer MoreNotions StripFacts WordFacts Frontend.
Local Open Scope string_scope.
Local Open Scope Z_scope.

Lemma py_int_065 (w : nat) : py_int (of_nat w * 0.65)%Q = 65 * Z.of_nat w / 100.
Proof.
  unfold py_int.
  assert (H : Qle_bool 0 (of_nat w * 0.65) = true).
  { apply Qle_bool_iff. unfold of_nat, Qle. cbn. lia. }
  rewrite H. unfold of_nat, Qmult, inject_Z, Qfloor. cbn [Qnum Qden].
  rewrite (Z.mul_comm (Z.of_nat w)). reflexivity.
Qed.


Lemma overall_score_words t :
  overall_score (evaluate_simple t) = simple_score (word_count t).
Proof.
  unfold evaluate_simple, simple_score, word_count. cbn [overall_score].
  rewrite py_int_065. reflexivity.
Qed.

Lemma simple_score_bounds w : 5 <= simple_score w <= 100.
Proof. unfold simple_score. lia. Qed.

Lemma simple_score_mono w1 w2 : (w1 <= w2)%nat -> simple_score w1 <= simple_score w2.
Proof.
  intros H. unfold simple_score.
  assert (65 * Z.of_nat w1 / 100 <= 65 * Z.of_nat w2 / 100)
    by (apply Z.div_le_mono; lia).
  lia.
Qed.

Lemma word_runs_grows t t' : forall b,
  (word_runs b t <= word_runs b (t ++ t')%list)%nat.
Proof.
  induction t as [|c t IH]; intros b; [apply Nat.le_0_l|].
  cbn [app word_runs]. destruct (isword c).
  - specialize (IH true). lia.
  - apply IH.
Qed.

(** X19.  The simple scorer of the front end gives 65 points per hundred
    words, rounded down and kept between 5 and 100: the overall score is 5
    up to nine words and 100 from 154 words on.  Content gets the overall
    score, Fluency 3 less, Clarity 5 less and Grammar 8 less but never less
    than 0; the clamp to 0..100 changes no other score. *)
Theorem evaluate_simple_scores (t : text) :
  overall_score (evaluate_simple t) =
    Z.min 100 (Z.max 5 (65 * Z.of_nat (word_count t) / 100)) /\
  5 <= overall_score (evaluate_simple t) <= 100 /\
  (overall_score (evaluate_simple t) = 5 <-> (word_count t <= 9)%nat) /\
  (overall_score (evaluate_simple t) = 100 <-> (154 <= word_count t)%nat) /\
  criteria (evaluate_simple t) =
    [ ("Clarity", overall_score (evaluate_simple t) - 5);
      ("Grammar", Z.max 0 (overall_score (evaluate_simple t) - 8));
      ("Fluency", overall_score (evaluate_simple t) - 3);
      ("Content", overall_score (evaluate_simple t)) ].
Proof.
  rewrite overall_score_words.
  assert (Hc : criteria (evaluate_simple t) =
               sanitize [ ("Clarity", simple_score (word_count t) - 5);
                          ("Grammar", simple_score (word_count t) - 8);
                          ("Fluency", simple_score (word_count t) - 3);
                          ("Content", simple_score (word_count t)) ]).
  { unfold evaluate_simple, simple_score, word_count. cbn [criteria].
    rewrite py_int_065. reflexivity. }
  rewrite Hc. clear Hc.
  pose proof (simple_score_bounds (word_count t)) as Hb.
  unfold simple_score in *.
  set (w := Z.of_nat (word_count t)) in *.
  assert (Hw : 0 <= w) by (unfold w; lia).
  assert (Hq : 100 * (65 * w / 100) <= 65 * w < 100 * (65 * w / 100) + 100).
  { pose proof (Z.div_mod (65 * w) 100). pose proof (Z.mod_pos_bound (65 * w) 100). lia. }
  split; [reflexivity|]. split; [assumption|]. split; [|split].
  - unfold w in *. lia.
  - unfold w in *. lia.
  - unfold sanitize. cbn [map fst snd].
    set (s := Z.min 100 (Z.max 5 (65 * w / 100))) in *.
    replace (Z.max 0 (Z.min 100 (s - 5))) with (s - 5) by lia.
    replace (Z.min 100 (s - 8)) with (s - 8) by lia.
    replace (Z.max 0 (Z.min 100 (s - 3))) with (s - 3) by lia.
    replace (Z.max 0 (Z.min 100 s)) with s by lia.
    reflexivity.
Qed.

(** X20.  More words never lower the simple score, and neither does text
    added at the end of a transcript. *)
Theorem evaluate_simple_monotone (t1 t2 t' : text) :
  ((word_count t1 <= word_count t2)%nat ->
   overall_score (evaluate_simple t1) <= overall_score (evaluate_simple t2)) /\
  overall_score (evaluate_simple t1) <= overall_score (evaluate_simple (t1 ++ t')%list).
Proof.
  rewrite !overall_score_words. split.
  - apply simple_score_mono.
  - apply simple_score_mono. rewrite !word_count_runs. apply word_runs_grows.
Qed.

(** Three words against four. *)
Lemma evaluate_simple_monotone_witness :
  (word_count (of_string "We like art") <= word_count (of_string "We like art too"))%nat /\
  overall_score (evaluate_simple (of_string "We like art")) <=
  overall_score (evaluate_simple (of_string "We like art too")).
Proof.
  assert (H : (word_count (of_string "We like art") <=
               word_count (of_string "We like art too"))%nat) by (vm_compute; lia).
  split; [exact H|].
  destruct (evaluate_simple_monotone (of_string "We like art") (of_string "We like art too") [])
    as [Hm _].
  exact (Hm H).
Defined.



End FrontendFacts.
